(** * algo-trading dashboard: the computations behind the Backtest, Chart,
      Portfolio, Trading, Dashboard, LiveFeed and App components

    The numbers of the JavaScript sources are modelled as exact rationals
    extended with the three special values of IEEE arithmetic that the code
    can produce through a division ([Infinity], [-Infinity], [NaN]).
    Rounding, overflow and the sign of zero are not part of the model: a
    sum or a quotient of the model is the exact one.  Where the operands come
    from outside the program (the bars of the chart, the live price), the
    theorems assume that the operands and the exact results are doubles
    ([dyadic53], [exact_mean]), so that the double operations return these
    very results; on the ledgers written in the components, a quotient of the
    model stands for the double nearest to it. *)

From Stdlib Require Import QArith Qcanon ZArith Lia Lqa.
From stdpp Require Import base numbers list strings gmap.

Local Open Scope Z_scope.

(** ** JavaScript numbers *)

Module Num.

Inductive number : Type :=
  | Fin (q : Qc)
  | PInf
  | NInf
  | NaN.

Definition Qc_sign (q : Qc) : comparison := (q ?= 0)%Qc.

Definition of_Z (z : Z) : number := Fin (Qc_of_Z z).
Definition of_nat (n : nat) : number := of_Z (Z.of_nat n).

(** Decimal literal with two fractional digits: [cents 14500] is [145.00]. *)
Definition cents (c : Z) : Qc := Q2Qc (c # 100).

Definition neg (a : number) : number :=
  match a with
  | Fin q => Fin (- q)%Qc
  | PInf => NInf
  | NInf => PInf
  | NaN => NaN
  end.

Definition add (a b : number) : number :=
  match a, b with
  | NaN, _ | _, NaN => NaN
  | Fin x, Fin y => Fin (x + y)%Qc
  | PInf, NInf | NInf, PInf => NaN
  | PInf, _ | _, PInf => PInf
  | NInf, _ | _, NInf => NInf
  end.

Definition sub (a b : number) : number := add a (neg b).

Definition inf_of_sign (s : comparison) : number :=
  match s with
  | Gt => PInf
  | Lt => NInf
  | Eq => NaN
  end.

Definition sign (a : number) : option comparison :=
  match a with
  | Fin q => Some (Qc_sign q)
  | PInf => Some Gt
  | NInf => Some Lt
  | NaN => None
  end.

Definition sign_mul (s t : comparison) : comparison :=
  match s, t with
  | Eq, _ | _, Eq => Eq
  | Gt, Gt | Lt, Lt => Gt
  | _, _ => Lt
  end.

Definition mul (a b : number) : number :=
  match a, b with
  | NaN, _ | _, NaN => NaN
  | Fin x, Fin y => Fin (x * y)%Qc
  | _, _ =>
      match sign a, sign b with
      | Some s, Some t => inf_of_sign (sign_mul s t)
      | _, _ => NaN
      end
  end.

(** [a / b]: a zero divisor gives an infinity of the sign of [a], or [NaN]
    for [0 / 0]; the zero of the model is the positive one. *)
Definition div (a b : number) : number :=
  match a, b with
  | NaN, _ | _, NaN => NaN
  | Fin x, Fin y =>
      match Qc_sign y with
      | Eq => inf_of_sign (Qc_sign x)
      | _ => Fin (x / y)%Qc
      end
  | Fin _, _ => Fin 0%Qc
  | _, Fin y =>
      match sign a, Qc_sign y with
      | Some s, Lt => inf_of_sign (sign_mul s Lt)
      | Some s, _ => inf_of_sign s
      | None, _ => NaN
      end
  | _, _ => NaN
  end.

(** [Math.abs] *)
Definition abs (a : number) : number :=
  match a with
  | Fin q => match Qc_sign q with Lt => Fin (- q)%Qc | _ => Fin q end
  | PInf | NInf => PInf
  | NaN => NaN
  end.

(** [a < b] of JavaScript: false as soon as one side is [NaN]. *)
Definition ltb (a b : number) : bool :=
  match a, b with
  | NaN, _ | _, NaN => false
  | Fin x, Fin y => match (x ?= y)%Qc with Lt => true | _ => false end
  | NInf, NInf | PInf, _ | _, NInf => false
  | _, _ => true
  end.

(** [Math.max(a, b)] and [Math.min(a, b)] *)
Definition max (a b : number) : number :=
  match a, b with
  | NaN, _ | _, NaN => NaN
  | _, _ => if ltb a b then b else a
  end.

Definition min (a b : number) : number :=
  match a, b with
  | NaN, _ | _, NaN => NaN
  | _, _ => if ltb b a then b else a
  end.

(** [Math.min(...xs)]: [Infinity] for no argument. *)
Definition min_list (xs : list number) : number := fold_left min xs PInf.

(** Truthiness of a number, and [a || b] on numbers. *)
Definition truthy (a : number) : bool :=
  match a with
  | Fin q => match Qc_sign q with Eq => false | _ => true end
  | NaN => false
  | _ => true
  end.

Definition or (a b : number) : number := if truthy a then a else b.

(** Sum of a list of numbers, added from 0 on, left to right. *)
Definition sum (xs : list number) : number := fold_left add xs (Fin 0%Qc).

End Num.

Abbreviation number := Num.number.
Abbreviation Fin := Num.Fin.
Abbreviation PInf := Num.PInf.
Abbreviation NInf := Num.NInf.
Abbreviation NaN := Num.NaN.

(** Values held by object fields and reported metrics. *)
Inductive value : Type :=
  | VNum (n : number)
  | VStr (s : string)
  | VNull.

(** ** The Backtest component (Backtest.jsx): [runBacktest] *)

Module Backtest.

Inductive action : Type := BUY | SELL.

#[global] Instance action_eq_dec : EqDecision action.
Proof. solve_decision. Defined.

Record trade : Type := {
  date : string;
  act : action;
  price : Qc;
  quantity : Qc;
  pnl : Qc
}.

(** The ledger written out in [runBacktest]. *)
Definition trades : list trade := [
  {| date := "2024-01-15"; act := BUY;  price := Num.cents 15000; quantity := Qc_of_Z 100; pnl := Qc_of_Z 0 |};
  {| date := "2024-01-20"; act := SELL; price := Num.cents 15500; quantity := Qc_of_Z 100; pnl := Qc_of_Z 500 |};
  {| date := "2024-02-01"; act := BUY;  price := Num.cents 15200; quantity := Qc_of_Z 100; pnl := Qc_of_Z 0 |};
  {| date := "2024-02-10"; act := SELL; price := Num.cents 14800; quantity := Qc_of_Z 100; pnl := Qc_of_Z (-400) |};
  {| date := "2024-03-01"; act := BUY;  price := Num.cents 14500; quantity := Qc_of_Z 100; pnl := Qc_of_Z 0 |};
  {| date := "2024-03-15"; act := SELL; price := Num.cents 16000; quantity := Qc_of_Z 100; pnl := Qc_of_Z 1500 |}
].

Record equity_point : Type := { ep_date : string; ep_equity : number }.
Record drawdown_point : Type := { dp_date : string; dp_drawdown : number }.
Record marker : Type := { x : string; y : Qc; type : action; m_pnl : Qc }.

(** The variables the [forEach] loop updates. *)
Module Vars.
Record t : Type := {
  equity : number;
  maxEquity : number;
  equityData : list equity_point;
  drawdownData : list drawdown_point
}.
End Vars.

Definition initial_vars : Vars.t :=
  {| Vars.equity := Num.of_Z 100000;
     Vars.maxEquity := Num.of_Z 100000;
     Vars.equityData := [];
     Vars.drawdownData := [] |}.

(** One iteration of [trades.forEach(trade => ...)]. *)
Definition forEach_body (v : Vars.t) (trade : trade) : Vars.t :=
  let equity := Num.add (Vars.equity v) (Fin (pnl trade)) in
  let maxEquity := Num.max (Vars.maxEquity v) equity in
  let drawdown :=
    Num.mul (Num.div (Num.sub equity maxEquity) maxEquity) (Num.of_Z 100) in
  {| Vars.equity := equity;
     Vars.maxEquity := maxEquity;
     Vars.equityData :=
       Vars.equityData v ++ [{| ep_date := date trade; ep_equity := equity |}];
     Vars.drawdownData :=
       Vars.drawdownData v ++ [{| dp_date := date trade; dp_drawdown := drawdown |}] |}.

Definition forEach (trades : list trade) : Vars.t :=
  fold_left forEach_body trades initial_vars.

Definition is_win (t : trade) : bool := Num.ltb (Fin 0%Qc) (Fin (pnl t)).
Definition is_loss (t : trade) : bool := Num.ltb (Fin (pnl t)) (Fin 0%Qc).

(** [ts.reduce((sum, t) => sum + t.pnl, 0)] *)
Definition sum_pnl (ts : list trade) : number :=
  fold_left (fun sum t => Num.add sum (Fin (pnl t))) ts (Fin 0%Qc).

Record results : Type := {
  symbol : string;
  strategy : string;
  period : string;
  startDate : string;
  endDate : string;
  initialCapital : number;
  finalCapital : number;
  totalReturn : number;
  totalReturnPercentage : number;
  sharpeRatio : value;
  maxDrawdown : number;
  totalTrades : number;
  winningTrades : number;
  losingTrades : number;
  winRate : number;
  averageWin : number;
  averageLoss : number;
  profitFactor : number;
  ledger : list trade;
  equityData : list equity_point;
  drawdownData : list drawdown_point;
  tradeMarkers : list marker
}.

(** The object [mockResults], as a function of the component state
    ([selectedSymbol], [selectedStrategy], [period]) and of the ledger; the
    field [trades] of the object is [ledger] here. *)
Definition mockResults (selectedSymbol selectedStrategy period : string)
    (trades : list trade) : results :=
  let v := forEach trades in
  let equity := Vars.equity v in
  let wins := filter (fun t => is_win t = true) trades in
  let losses := filter (fun t => is_loss t = true) trades in
  {| symbol := selectedSymbol;
     strategy := selectedStrategy;
     period := period;
     startDate := "2024-01-01";
     endDate := "2024-12-31";
     initialCapital := Num.of_Z 100000;
     finalCapital := equity;
     totalReturn := Num.sub equity (Num.of_Z 100000);
     totalReturnPercentage :=
       Num.mul (Num.div (Num.sub equity (Num.of_Z 100000)) (Num.of_Z 100000))
               (Num.of_Z 100);
     sharpeRatio := VNum (Fin (Num.cents 145));
     maxDrawdown := Num.min_list (map dp_drawdown (Vars.drawdownData v));
     totalTrades := Num.of_nat (length trades);
     winningTrades := Num.of_nat (length wins);
     losingTrades := Num.of_nat (length losses);
     winRate :=
       Num.mul (Num.div (Num.of_nat (length wins)) (Num.of_nat (length trades)))
               (Num.of_Z 100);
     averageWin :=
       Num.or (Num.div (sum_pnl wins) (Num.of_nat (length wins))) (Num.of_Z 0);
     averageLoss :=
       Num.or (Num.div (sum_pnl losses) (Num.of_nat (length losses))) (Num.of_Z 0);
     profitFactor :=
       Num.or (Num.abs (Num.div (sum_pnl wins) (sum_pnl losses))) (Num.of_Z 0);
     ledger := trades;
     equityData := Vars.equityData v;
     drawdownData := Vars.drawdownData v;
     tradeMarkers :=
       map (fun t => {| x := date t; y := price t; type := act t; m_pnl := pnl t |})
           trades |}.

(** What [runBacktest] hands to [setResults] for the initial selections. *)
Definition runBacktest : results := mockResults "AAPL" "sma_crossover" "1y" trades.

End Backtest.

(** ** A store of objects and arrays

    Arrays and objects of the Chart component live in a store, so that
    "returns a new array" and "does not touch its argument" are statements
    about locations.  A location is an index in the store; allocation
    appends.  A computation fails (returns [None]) only where the sources
    would leave the typing the embedding assumes: a dangling location, an
    array where an object is expected, a [Close] field holding a string. *)

Module Store.

Abbreviation loc := nat.

Inductive cell : Type :=
  | Obj (fields : gmap string value)
  | Arr (elems : list loc).

Abbreviation store := (list cell).

Definition M (A : Type) : Type := store -> option (A * store).

Definition ret {A} (a : A) : M A := fun h => Some (a, h).

Definition bind {A B} (m : M A) (k : A -> M B) : M B :=
  fun h => match m h with
           | Some (a, h') => k a h'
           | None => None
           end.

Definition fail {A} : M A := fun _ => None.

Definition alloc (c : cell) : M loc := fun h => Some (length h, h ++ [c]).

Definition read_obj (l : loc) : M (gmap string value) :=
  fun h => match h !! l with
           | Some (Obj o) => Some (o, h)
           | _ => None
           end.

Definition read_arr (l : loc) : M (list loc) :=
  fun h => match h !! l with
           | Some (Arr a) => Some (a, h)
           | _ => None
           end.

End Store.

#[global] Instance store_ret : MRet Store.M := @Store.ret.
#[global] Instance store_bind : MBind Store.M := fun A B k m => Store.bind m k.

(** ** The Chart component (in LiveFeed.jsx): [computeSMA] *)

Module Chart.
Import Store.

(** [a.slice(start, end)] on the elements of an array: negative indices
    count from the end, both bounds are clamped to the length. *)
Definition slice {A} (a : list A) (start end_ : Z) : list A :=
  let len := Z.of_nat (length a) in
  let k := if start <? 0 then Z.max (len + start) 0 else Z.min start len in
  let final := if end_ <? 0 then Z.max (len + end_) 0 else Z.min end_ len in
  take (Z.to_nat (final - k)) (drop (Z.to_nat k) a).

(** [data.slice(start, end)]: a new array in the store. *)
Definition array_slice (data : loc) (start end_ : Z) : M loc :=
  a ← read_arr data;
  alloc (Arr (slice a start end_)).

(** The operand [item.Close] of [sum + item.Close]: a number as it is,
    [null] as 0, a missing field ([undefined]) as [NaN].  With a string the
    sum would become a string; the embedding stops there. *)
Definition Close_operand (item : gmap string value) : option number :=
  match item !! "Close" with
  | Some (VNum n) => Some n
  | Some VNull => Some (Fin 0%Qc)
  | None => Some NaN
  | Some (VStr _) => None
  end.

(** [slice.reduce((sum, item) => sum + item.Close, 0)] *)
Fixpoint reduce_items (items : list loc) (sum : number) : M number :=
  match items with
  | [] => ret sum
  | item :: rest =>
      o ← read_obj item;
      match Close_operand o with
      | Some c => reduce_items rest (Num.add sum c)
      | None => fail
      end
  end.

Definition reduce_Close (slice : loc) : M number :=
  items ← read_arr slice;
  reduce_items items (Fin 0%Qc).

(** The arrow function given to [data.map]: [d] is the element, [i] its
    index; [{ ...d, sma }] is a new object. *)
Definition callback (data : loc) (period : Z) (d : loc) (i : nat) : M loc :=
  if Z.of_nat i <? period - 1 then
    o ← read_obj d;
    alloc (Obj (<["sma" := VNull]> o))
  else
    slice ← array_slice data (Z.of_nat i - period + 1) (Z.of_nat i + 1);
    sum ← reduce_Close slice;
    let sma := Num.div sum (Num.of_Z period) in
    o ← read_obj d;
    alloc (Obj (<["sma" := VNum sma]> o)).

(** [a.map(f)]: [f] on every element with its index, from left to right;
    the results are the elements of a new array. *)
Fixpoint map_from (f : loc -> nat -> M loc) (elems : list loc) (i : nat)
    : M (list loc) :=
  match elems with
  | [] => ret []
  | d :: rest =>
      r ← f d i;
      rs ← map_from f rest (S i);
      ret (r :: rs)
  end.

Definition array_map (f : loc -> nat -> M loc) (a : loc) : M loc :=
  elems ← read_arr a;
  rs ← map_from f elems 0%nat;
  alloc (Arr rs).

Definition computeSMA (data : loc) (period : Z) : M loc :=
  array_map (callback data period) data.

(** The default of the parameter [period]. *)
Definition default_period : Z := 20.

End Chart.

(** ** The Portfolio component *)

Module Portfolio.

Record position : Type := {
  symbol : string;
  shares : Qc;
  avgPrice : Qc;
  currentPrice : Qc
}.

Record state : Type := {
  totalValue : Qc;
  cash : Qc;
  positions : list position
}.

(** The state the component starts with; it has no other. *)
Definition portfolio : state :=
  {| totalValue := Qc_of_Z 100000;
     cash := Qc_of_Z 50000;
     positions := [
       {| symbol := "AAPL"; shares := Qc_of_Z 100; avgPrice := Num.cents 15000;
          currentPrice := Num.cents 24529 |};
       {| symbol := "MSFT"; shares := Qc_of_Z 50; avgPrice := Num.cents 30000;
          currentPrice := Num.cents 41250 |};
       {| symbol := "GOOGL"; shares := Qc_of_Z 25; avgPrice := Num.cents 250000;
          currentPrice := Num.cents 278000 |} ] |}.

Definition calculatePnL (shares avgPrice currentPrice : number) : number :=
  Num.mul (Num.sub currentPrice avgPrice) shares.

Definition calculateTotalPnL (portfolio : state) : number :=
  fold_left
    (fun total position =>
       Num.add total
         (calculatePnL (Fin (shares position)) (Fin (avgPrice position))
            (Fin (currentPrice position))))
    (positions portfolio) (Fin 0%Qc).

Definition totalPnL (portfolio : state) : number := calculateTotalPnL portfolio.

Definition totalPnLPercentage (portfolio : state) : number :=
  Num.mul (Num.div (totalPnL portfolio) (Fin (totalValue portfolio)))
          (Num.of_Z 100).

Record allocation : Type := { name : string; value : number; fill : string }.

Definition colours : list string := ["#3b82f6"; "#10b981"; "#f59e0b"].

(** [portfolio.positions.indexOf(position)] is the index of [position]:
    the positions are distinct objects. *)
Definition allocationData (portfolio : state) : list allocation :=
  imap
    (fun i position =>
       let currentValue :=
         Num.mul (Fin (shares position)) (Fin (currentPrice position)) in
       {| name := symbol position;
          value := currentValue;
          fill := default "" (colours !! (i mod 3)%nat) |})
    (positions portfolio).

Record row : Type := {
  row_symbol : string;
  row_pnl : number;
  row_pnlPercentage : number;
  row_currentValue : number
}.

(** The numbers the component renders. *)
Record overview : Type := {
  shown_totalValue : number;
  shown_cash : number;
  shown_totalPnL : number;
  shown_totalPnLPercentage : number;
  shown_allocation : list allocation;
  shown_positions : list row
}.

Definition render (portfolio : state) : overview :=
  {| shown_totalValue := Fin (totalValue portfolio);
     shown_cash := Fin (cash portfolio);
     shown_totalPnL := totalPnL portfolio;
     shown_totalPnLPercentage := totalPnLPercentage portfolio;
     shown_allocation := allocationData portfolio;
     shown_positions :=
       map
         (fun position =>
            {| row_symbol := symbol position;
               row_pnl :=
                 calculatePnL (Fin (shares position)) (Fin (avgPrice position))
                   (Fin (currentPrice position));
               row_pnlPercentage :=
                 Num.mul
                   (Num.div
                      (Num.sub (Fin (currentPrice position))
                         (Fin (avgPrice position)))
                      (Fin (avgPrice position)))
                   (Num.of_Z 100);
               row_currentValue :=
                 Num.mul (Fin (shares position)) (Fin (currentPrice position)) |})
         (positions portfolio) |}.

End Portfolio.

(** ** The quantities the specification speaks of

    Written from the words of the specification, on exact rationals, to be
    compared with what the components compute. *)

Definition Qc_max (a b : Qc) : Qc :=
  match (a ?= b)%Qc with Lt => b | _ => a end.

Definition sum_Qc (l : list Qc) : Qc := foldr Qcplus 0%Qc l.

(** Arithmetic mean of a list. *)
Definition mean (l : list Qc) : Qc :=
  (sum_Qc l / Qc_of_Z (Z.of_nat (length l)))%Qc.

Definition fin (n : number) : option Qc :=
  match n with Fin q => Some q | _ => None end.

Module Claimed.
Local Open Scope Qc_scope.

Definition initial_capital : Qc := Qc_of_Z 100000.

(** Initial capital plus the pnl of trades 0 through [i]. *)
Definition equity_at (ts : list Backtest.trade) (i : nat) : Qc :=
  initial_capital + sum_Qc (map Backtest.pnl (take (S i) ts)).

(** The maximum of 100000 and of all equity values up to [i]. *)
Definition peak_at (ts : list Backtest.trade) (i : nat) : Qc :=
  foldr Qc_max initial_capital (map (equity_at ts) (seq 0 (S i))).

(** max(equity(0..t)) over the points of the curve. *)
Definition max_equity_upto (ts : list Backtest.trade) (t : nat) : Qc :=
  foldr Qc_max (equity_at ts 0) (map (equity_at ts) (seq 1 t)).

(** (equity(t) - max(equity(0..t))) / max(equity(0..t)) *)
Definition drawdown_at (ts : list Backtest.trade) (t : nat) : Qc :=
  (equity_at ts t - max_equity_upto ts t) / max_equity_upto ts t.

(** The code's drawdown, in percent of the running peak. *)
Definition drawdown_percent_at (ts : list Backtest.trade) (t : nat) : Qc :=
  (equity_at ts t - peak_at ts t) / peak_at ts t * Qc_of_Z 100.

Definition winning (ts : list Backtest.trade) : list Backtest.trade :=
  filter (fun t => 0 < Backtest.pnl t) ts.

Definition losing (ts : list Backtest.trade) : list Backtest.trade :=
  filter (fun t => Backtest.pnl t < 0) ts.

Definition closing (ts : list Backtest.trade) : list Backtest.trade :=
  filter (fun t => Backtest.act t = Backtest.SELL) ts.

(** count(trades with realized P&L > 0) / count(closing trades) *)
Definition win_rate (ts : list Backtest.trade) : number :=
  Num.div (Num.of_nat (length (winning ts))) (Num.of_nat (length (closing ts))).

(** (final_equity - initial_equity) / initial_equity *)
Definition total_return (r : Backtest.results) : number :=
  Num.div (Num.sub (Backtest.finalCapital r) (Backtest.initialCapital r))
          (Backtest.initialCapital r).

(** sum(winning P&L) / abs(sum(losing P&L)) *)
Definition profit_factor (ts : list Backtest.trade) : number :=
  Num.div (Fin (sum_Qc (map Backtest.pnl (winning ts))))
          (Num.abs (Fin (sum_Qc (map Backtest.pnl (losing ts))))).

(** Period returns of an equity curve: the relative change from one point
    to the next. *)
Fixpoint period_returns (es : list Qc) : list Qc :=
  match es with
  | e0 :: ((e1 :: _) as rest) => (e1 - e0) / e0 :: period_returns rest
  | _ => []
  end.

(** Variance of a list; the standard deviation is 0 exactly when it is. *)
Definition variance (l : list Qc) : Qc :=
  mean (map (fun x => (x - mean l) * (x - mean l)) l).

Definition curve (r : Backtest.results) : list Qc :=
  omap (fun p => fin (Backtest.ep_equity p)) (Backtest.equityData r).

(** The [p] closes that end at index [i]. *)
Definition trailing (closes : list Qc) (p i : nat) : list Qc :=
  take p (drop (S i - p) closes).

(** Sum over positions of shares times current price. *)
Definition holdings_value (s : Portfolio.state) : Qc :=
  sum_Qc (map (fun p => Portfolio.shares p * Portfolio.currentPrice p)
              (Portfolio.positions s)).

(** Cash plus the sum over positions of shares times current price. *)
Definition portfolio_value (s : Portfolio.state) : Qc :=
  Portfolio.cash s + holdings_value s.

(** Sum over positions of shares times average entry price. *)
Definition cost_basis (s : Portfolio.state) : Qc :=
  sum_Qc (map (fun p => Portfolio.shares p * Portfolio.avgPrice p)
              (Portfolio.positions s)).

End Claimed.

(** Equity and running peak after a whole ledger, on exact rationals. *)
Definition equity_of (ts : list Backtest.trade) : Qc :=
  (Claimed.initial_capital + sum_Qc (map Backtest.pnl ts))%Qc.

Definition peak_of (ts : list Backtest.trade) : Qc :=
  foldr Qc_max Claimed.initial_capital
    (map (fun k => equity_of (take k ts)) (seq 1 (length ts))).

(** The [sma] field the callback of [computeSMA] writes at index [i], on
    the [Close] operands of the whole input. *)
Definition sma_value (operands : list number) (period : Z) (i : nat) : value :=
  if Z.of_nat i <? period - 1 then VNull
  else
    VNum (Num.div
            (fold_left Num.add
               (Chart.slice operands (Z.of_nat i - period + 1) (Z.of_nat i + 1))
               (Fin 0%Qc))
            (Num.of_Z period)).

(** The elements of an array are objects with these fields. *)
Definition holds_rows (h : Store.store) (elems : list Store.loc)
    (rows : list (gmap string value)) : Prop :=
  Forall2 (fun e o => h !! e = Some (Store.Obj o)) elems rows.

(** A computation that fails in a store: it returns no result. *)
Definition fails {A} (m : Store.M A) (h : Store.store) : Prop := m h = None.

(** One bar, as the historical-data endpoint delivers it. *)
Definition one_bar : gmap string value :=
  <["Datetime" := VStr "2024-01-15"]>
    (<["Close" := VNum (Fin (Num.cents 15000))]>
       (<["Volume" := VNum (Fin (Qc_of_Z 1000))]> ∅)).

Definition one_bar_store : Store.store := [Store.Obj one_bar; Store.Arr [0%nat]].

(** Four bars with closes 1, 2, 3 and 6, and the array that holds them. *)
Definition bar (day : string) (close : Z) : gmap string value :=
  <["Datetime" := VStr day]> (<["Close" := VNum (Fin (Qc_of_Z close))]> ∅).

Definition sample_rows : list (gmap string value) :=
  [bar "2024-01-15" 1; bar "2024-01-16" 2; bar "2024-01-17" 3; bar "2024-01-18" 6].

Definition sample_closes : list Qc :=
  [Qc_of_Z 1; Qc_of_Z 2; Qc_of_Z 3; Qc_of_Z 6].

Definition sample_store : Store.store :=
  map Store.Obj sample_rows ++ [Store.Arr [0; 1; 2; 3]%nat].

(** ** Further quantities used to state what the components compute *)

Definition Qc_min (a b : Qc) : Qc :=
  match (b ?= a)%Qc with Lt => b | _ => a end.

(** [Math.max(...xs)]: [-Infinity] for no argument. *)
Definition max_list (xs : list number) : number := fold_left Num.max xs NInf.

#[global] Instance number_eq_dec : EqDecision number.
Proof. solve_decision. Defined.

#[global] Instance value_eq_dec : EqDecision value.
Proof. solve_decision. Defined.

(** [ToNumber] on a field that may be missing: a number as it is, [null] as
    0, a missing field ([undefined]) as [NaN]; the parse of a string is not
    modelled. *)
Definition to_number (v : option value) : option number :=
  match v with
  | Some (VNum n) => Some n
  | Some VNull => Some (Fin 0%Qc)
  | None => Some NaN
  | Some (VStr _) => None
  end.

(** ** The Trading component (in LiveFeed.jsx): [startTrading] *)

Module Trading.

Record signal : Type := {
  x : string;
  y : number;
  type : Backtest.action;
  strategy : string
}.

Record trade : Type := {
  id : number;
  symbol : string;
  action : Backtest.action;
  price : number;
  quantity : number;
  timestamp : string
}.

Record pnl_point : Type := { time : string; pnl : number }.

(** [livePrice?.price || 150], from [livePrice?.price]: [None] when
    [livePrice] is null or carries no price. *)
Definition basePrice (price : option number) : number :=
  match price with
  | Some p => Num.or p (Num.of_Z 150)
  | None => Num.of_Z 150
  end.

Definition mockSignals (basePrice : number) (selectedStrategy : string)
    : list signal := [
  {| x := "2024-01-15"; y := Num.sub basePrice (Num.of_Z 5);
     type := Backtest.BUY; strategy := selectedStrategy |};
  {| x := "2024-01-20"; y := basePrice;
     type := Backtest.SELL; strategy := selectedStrategy |};
  {| x := "2024-02-01"; y := Num.add basePrice (Num.of_Z 2);
     type := Backtest.BUY; strategy := selectedStrategy |};
  {| x := "2024-02-10"; y := Num.sub basePrice (Num.of_Z 3);
     type := Backtest.SELL; strategy := selectedStrategy |}
].

(** [new Date(x).toISOString()] on a date-only string [YYYY-MM-DD], which
    is read as midnight UTC. *)
Definition toISOString (x : string) : string := x ++ "T00:00:00.000Z".

Definition mockTrades (mockSignals : list signal) (selectedSymbol : string)
    : list trade :=
  imap
    (fun index signal =>
       {| id := Num.of_nat (index + 1);
          symbol := selectedSymbol;
          action := type signal;
          price := y signal;
          quantity := Num.of_Z 100;
          timestamp := toISOString (x signal) |})
    mockSignals.

(** The function given to [mockTrades.reduce]; [mockTrades[index - 1].price]
    throws when there is no such element. *)
Definition reduce_body (mockTrades : list trade) (acc : list pnl_point)
    (trade : trade) (index : nat) : option (list pnl_point) :=
  pnl ← (if (index mod 2 =? 1)%nat then
           prev ← mockTrades !! (index - 1)%nat;
           Some (Num.mul (Num.sub (price trade) (price prev)) (quantity trade))
         else Some (Num.of_Z 0));
  Some (acc ++ [{| time := timestamp trade;
                   pnl := match last acc with
                          | Some l => Num.add (Trading.pnl l) pnl
                          | None => pnl
                          end |}]).

Fixpoint reduce_from (mockTrades rest : list trade) (index : nat)
    (acc : list pnl_point) : option (list pnl_point) :=
  match rest with
  | [] => Some acc
  | trade :: rest =>
      acc ← reduce_body mockTrades acc trade index;
      reduce_from mockTrades rest (S index) acc
  end.

Definition cumulativePnl (mockTrades : list trade) : option (list pnl_point) :=
  reduce_from mockTrades mockTrades 0%nat [].

(** The state of the component that [startTrading] and [stopTrading] set. *)
Record state : Type := {
  isTrading : bool;
  trades : list trade;
  signals : list signal;
  pnlData : list pnl_point
}.

Definition startTrading (livePrice_price : option number)
    (selectedSymbol selectedStrategy : string) (st : state) : option state :=
  let basePrice := basePrice livePrice_price in
  let mockSignals := mockSignals basePrice selectedStrategy in
  let mockTrades := mockTrades mockSignals selectedSymbol in
  cumulativePnl ← cumulativePnl mockTrades;
  Some {| isTrading := true;
          trades := mockTrades;
          signals := mockSignals;
          pnlData := cumulativePnl |}.

Definition stopTrading (st : state) : state :=
  {| isTrading := false;
     trades := trades st;
     signals := signals st;
     pnlData := pnlData st |}.

End Trading.

(** Realized P&L after trades 0 through [i] when trades are paired off: each
    trade at an odd index closes the trade before it. *)
Definition realized (prices quantities : list Qc) (i : nat) : Qc :=
  sum_Qc
    (map (fun j =>
            if Nat.odd j
            then ((nth j prices 0 - nth (j - 1) prices 0) * nth j quantities 0)%Qc
            else 0%Qc)
         (seq 0 (S i))).

(** ** The Chart component (in LiveFeed.jsx): what is plotted

    The arrays that [map] and [filter] build here hold fresh objects that
    nothing else refers to; they are lists of records. *)

Module ChartView.
Import Store.

Record point : Type := {
  date : string;
  price : option value;
  sma : value;
  volume : option value
}.

(** [v || null], [v] a field that may be missing. *)
Definition or_null (v : option value) : value :=
  match v with
  | Some (VNum n) => if Num.truthy n then VNum n else VNull
  | Some (VStr s) => if decide (s = "") then VNull else VStr s
  | Some VNull | None => VNull
  end.

(** The objects an array of locations refers to. *)
Fixpoint read_all (ls : list loc) : M (list (gmap string value)) :=
  match ls with
  | [] => mret []
  | l :: rest =>
      o ← read_obj l;
      os ← read_all rest;
      mret (o :: os)
  end.

(** The numbers [Math.min] and [Math.max] get from one field of every row. *)
Fixpoint operands (field : string) (rows : list (gmap string value))
    : option (list number) :=
  match rows with
  | [] => Some []
  | d :: rest =>
      n ← to_number (d !! field);
      ns ← operands field rest;
      Some (n :: ns)
  end.

Section Locale.
(** [new Date(v).toLocaleDateString()]: it depends on the locale of the
    browser. *)
Variable toLocaleDateString : option value -> string.

Definition to_point (d : gmap string value) : point :=
  {| date := toLocaleDateString (d !! "Datetime");
     price := d !! "Close";
     sma := or_null (d !! "sma");
     volume := d !! "Volume" |}.

Definition processedData (data : loc) : M (list point) :=
  out ← Chart.computeSMA data Chart.default_period;
  elems ← read_arr out;
  ds ← read_all elems;
  mret (filter (fun d => sma d <> VNull) (map to_point ds)).

End Locale.

(** [Math.min(...data.map(d => d.Low))] *)
Definition minPrice (data : loc) : M number :=
  elems ← read_arr data;
  ds ← read_all elems;
  match operands "Low" ds with
  | Some lows => mret (Num.min_list lows)
  | None => Store.fail
  end.

(** [Math.max(...data.map(d => d.High))] *)
Definition maxPrice (data : loc) : M number :=
  elems ← read_arr data;
  ds ← read_all elems;
  match operands "High" ds with
  | Some highs => mret (max_list highs)
  | None => Store.fail
  end.

End ChartView.

(** Twenty-one bars with closes 1 to 21, lows one below and highs one above
    the close, and the array that holds them. *)
Definition ramp_bar (close : Z) : gmap string value :=
  <["Datetime" := VStr "2024-01-15"]>
    (<["Close" := VNum (Fin (Qc_of_Z close))]>
       (<["Low" := VNum (Fin (Qc_of_Z (close - 1)))]>
          (<["High" := VNum (Fin (Qc_of_Z (close + 1)))]> ∅))).

Definition ramp : list Z := map Z.of_nat (seq 1 21).

Definition ramp_rows : list (gmap string value) := map ramp_bar ramp.

Definition ramp_store : Store.store :=
  map Store.Obj ramp_rows ++ [Store.Arr (seq 0 21)].

(** ** JavaScript strings

    The strings here are strings of ASCII characters, as the symbols and the
    names of the sources are. *)

Module Str.

(** [toLowerCase] on ASCII characters. *)
Definition lower (c : Ascii.ascii) : Ascii.ascii :=
  let n := Ascii.nat_of_ascii c in
  if (65 <=? n)%nat && (n <=? 90)%nat then Ascii.ascii_of_nat (n + 32) else c.

Fixpoint toLowerCase (s : string) : string :=
  match s with
  | EmptyString => EmptyString
  | String c s => String (lower c) (toLowerCase s)
  end.

(** The characters [' '] and ['-']. *)
Definition space : Ascii.ascii := Ascii.ascii_of_nat 32.
Definition hyphen : Ascii.ascii := Ascii.ascii_of_nat 45.

(** [s.replace(' ', '-')]: the first space only. *)
Fixpoint replace_space (s : string) : string :=
  match s with
  | EmptyString => EmptyString
  | String c s =>
      if Ascii.eqb c space then String hyphen s else String c (replace_space s)
  end.

(** [s.includes(t)]: [t] occurs in [s]. *)
Fixpoint includes (s t : string) : bool :=
  String.prefix t s
  || match s with
     | EmptyString => false
     | String _ s => includes s t
     end.

End Str.

(** ** The App component with the tab bar (src/unnamed/part_001) *)

Module App.

Record item : Type := { name : string; href : string; current : bool }.

(** The array [navigation], rebuilt at every rendering from [activeTab]. *)
Definition navigation (activeTab : string) : list item := [
  {| name := "Dashboard"; href := "/";
     current := bool_decide (activeTab = "dashboard") |};
  {| name := "Live Trading"; href := "/trading";
     current := bool_decide (activeTab = "trading") |};
  {| name := "Backtest"; href := "/backtest";
     current := bool_decide (activeTab = "backtest") |};
  {| name := "Portfolio"; href := "/portfolio";
     current := bool_decide (activeTab = "portfolio") |};
  {| name := "Live Feed"; href := "/feed";
     current := bool_decide (activeTab = "feed") |}
].

(** The [activeTab] that a click on [item] sets. *)
Definition onClick (item : item) : string :=
  Str.replace_space (Str.toLowerCase (name item)).

End App.

(** ** The LiveFeed component (LiveFeed.jsx): [getPriceChangeColor] *)

Module LiveFeed.

Definition getPriceChangeColor (current previous : number) : string :=
  if Num.ltb previous current then "text-green-600"
  else if Num.ltb current previous then "text-red-600"
  else "text-gray-600".

End LiveFeed.

(** ** The Dashboard component (in LiveFeed.jsx): the symbol search *)

Module Dashboard.

Definition symbols : list string := ["AAPL"; "MSFT"; "GOOGL"; "AMZN"; "TSLA"; "NVDA"].

Definition filteredSymbols (searchTerm : string) : list string :=
  filter
    (fun symbol =>
       Str.includes (Str.toLowerCase symbol) (Str.toLowerCase searchTerm) = true)
    symbols.

End Dashboard.

(** ** Where double arithmetic is exact

    A rational [n / 2^s] with [|n| < 2^53] and [s <= 1074] is a double.  When
    the operands and the exact result of an addition or a division are such
    numbers, the double operation returns that result: nothing is rounded
    and nothing overflows. *)

Fixpoint pow2_exponent (d : positive) : option nat :=
  match d with
  | xH => Some 0%nat
  | xO d => S <$> pow2_exponent d
  | xI _ => None
  end.

Definition dyadic53 (q : Qc) : bool :=
  (Z.abs (Qnum (this q)) <? 2 ^ 53)
  && match pow2_exponent (Qden (this q)) with
     | Some s => (s <=? 1074)%nat
     | None => false
     end.

(** The sum of [l], added from 0 on from left to right, and its division
    by the length of [l], go through such numbers only. *)
(** The closes of [l], the sums [0 + l_0 + ... + l_k] that [reduce] goes
    through from left to right, and the mean are all such numbers. *)
Definition exact_mean (l : list Qc) : bool :=
  forallb dyadic53 l
  && forallb (fun k => dyadic53 (sum_Qc (take k l))) (seq 0 (S (length l)))
  && dyadic53 (mean l).

(** Absolute value of a rational. *)
Definition Qc_abs (q : Qc) : Qc :=
  match (q ?= 0)%Qc with Lt => (- q)%Qc | _ => q end.

(** Variance with the divisor [n - 1]. *)
Definition sample_variance (l : list Qc) : Qc :=
  (sum_Qc (map (fun x => (x - mean l) * (x - mean l)) l)
   / Qc_of_Z (Z.of_nat (length l) - 1))%Qc.

(** ** Facts on rationals *)

Section QcFacts.
Local Open Scope Qc_scope.

Lemma Qc_max_spec (a b : Qc) :
  (a < b /\ Qc_max a b = b) \/ (b <= a /\ Qc_max a b = a).
Proof.
  unfold Qc_max. destruct (a ?= b) eqn:E.
  - right. apply Qceq_alt in E. subst. split; [apply Qcle_refl | reflexivity].
  - left. split; [apply Qclt_alt; exact E | reflexivity].
  - right. split; [| reflexivity]. apply Qclt_le_weak. apply Qcgt_alt in E. exact E.
Qed.

Lemma Qc_max_ub_l (a b : Qc) : a <= Qc_max a b.
Proof.
  destruct (Qc_max_spec a b) as [[H ->] | [H ->]].
  - apply Qclt_le_weak, H.
  - apply Qcle_refl.
Qed.

Lemma Qc_max_ub_r (a b : Qc) : b <= Qc_max a b.
Proof.
  destruct (Qc_max_spec a b) as [[H ->] | [H ->]].
  - apply Qcle_refl.
  - exact H.
Qed.

Lemma Qc_max_lub (a b c : Qc) : a <= c -> b <= c -> Qc_max a b <= c.
Proof. intros Ha Hb. destruct (Qc_max_spec a b) as [[_ ->] | [_ ->]]; assumption. Qed.

Lemma Qc_max_comm (a b : Qc) : Qc_max a b = Qc_max b a.
Proof.
  apply Qcle_antisym; apply Qc_max_lub; auto using Qc_max_ub_l, Qc_max_ub_r.
Qed.

Lemma Qc_max_assoc (a b c : Qc) : Qc_max a (Qc_max b c) = Qc_max (Qc_max a b) c.
Proof.
  apply Qcle_antisym; repeat apply Qc_max_lub;
    eauto using Qc_max_ub_l, Qc_max_ub_r, Qcle_trans.
Qed.

Lemma foldr_Qc_max_snoc (c x : Qc) (l : list Qc) :
  foldr Qc_max c (l ++ [x]) = Qc_max (foldr Qc_max c l) x.
Proof.
  induction l as [| a l IH]; simpl.
  - apply Qc_max_comm.
  - rewrite IH. apply Qc_max_assoc.
Qed.

Lemma foldr_Qc_max_base (c : Qc) (l : list Qc) : c <= foldr Qc_max c l.
Proof.
  induction l as [| a l IH]; simpl.
  - apply Qcle_refl.
  - eapply Qcle_trans; [exact IH | apply Qc_max_ub_r].
Qed.

Lemma sum_Qc_snoc (l : list Qc) (x : Qc) : sum_Qc (l ++ [x]) = sum_Qc l + x.
Proof.
  unfold sum_Qc. induction l as [| a l IH]; simpl.
  - ring.
  - rewrite IH. ring.
Qed.

Lemma max_Fin (a b : Qc) : Num.max (Fin a) (Fin b) = Fin (Qc_max a b).
Proof. unfold Num.max, Num.ltb, Qc_max. destruct (a ?= b); reflexivity. Qed.

Lemma div_Fin_pos (a b : Qc) : 0 < b -> Num.div (Fin a) (Fin b) = Fin (a / b).
Proof.
  intros Hb. unfold Num.div, Num.Qc_sign.
  destruct (b ?= 0) eqn:E; try reflexivity.
  apply Qceq_alt in E. subst. exfalso. eapply Qclt_not_eq; [exact Hb | reflexivity].
Qed.

Lemma drawdown_nonpos (e p : Qc) : 0 < p -> e <= p -> (e - p) / p * Qc_of_Z 100 <= 0.
Proof.
  intros Hp He.
  unfold Qcle, Qclt, Qcminus, Qcdiv, Qcmult, Qcplus, Qcopp, Qcinv in *. simpl in *.
  rewrite ?Qred_correct.
  assert (0 < / p)%Q by (apply Qinv_lt_0_compat; exact Hp).
  set (ip := (/ p)%Q) in *. unfold inject_Z. nra.
Qed.

End QcFacts.

(** ** The loop of [runBacktest] *)

Section BacktestLoop.
Import Backtest.
Local Open Scope Qc_scope.

Lemma forEach_snoc (ts : list trade) (t : trade) :
  forEach (ts ++ [t]) = forEach_body (forEach ts) t.
Proof. unfold forEach. rewrite fold_left_app. reflexivity. Qed.

Lemma equity_of_snoc ts t : equity_of (ts ++ [t]) = equity_of ts + pnl t.
Proof.
  unfold equity_of. rewrite map_app. change (map pnl [t]) with [pnl t].
  rewrite sum_Qc_snoc. ring.
Qed.

Lemma peak_of_snoc ts t :
  peak_of (ts ++ [t]) = Qc_max (peak_of ts) (equity_of (ts ++ [t])).
Proof.
  unfold peak_of. rewrite length_app. simpl length.
  rewrite seq_app, map_app. simpl map.
  rewrite foldr_Qc_max_snoc. f_equal.
  - f_equal. apply map_ext_in. intros k Hk. apply in_seq in Hk.
    rewrite take_app_le by lia. reflexivity.
  - rewrite take_ge; [reflexivity |]. rewrite length_app. simpl. lia.
Qed.

Lemma initial_capital_pos : 0 < Claimed.initial_capital.
Proof. reflexivity. Qed.

Lemma peak_of_pos ts : 0 < peak_of ts.
Proof.
  eapply Qclt_le_trans; [apply initial_capital_pos | apply foldr_Qc_max_base].
Qed.

Lemma equity_le_peak ts : equity_of ts <= peak_of ts.
Proof.
  destruct ts as [| t ts] using rev_ind.
  - unfold equity_of, peak_of, sum_Qc. simpl. rewrite Qcplus_0_r. apply Qcle_refl.
  - rewrite peak_of_snoc. apply Qc_max_ub_r.
Qed.

Lemma forEach_vars (ts : list trade) :
  Vars.equity (forEach ts) = Fin (equity_of ts)
  /\ Vars.maxEquity (forEach ts) = Fin (peak_of ts).
Proof.
  induction ts as [| t ts [IHe IHm]] using rev_ind.
  - split; [| reflexivity].
    unfold equity_of, sum_Qc. simpl. rewrite Qcplus_0_r. reflexivity.
  - rewrite forEach_snoc. unfold forEach_body. simpl.
    rewrite IHe, IHm. simpl Num.add. rewrite max_Fin.
    rewrite peak_of_snoc, equity_of_snoc. split; reflexivity.
Qed.

Lemma forEach_lengths (ts : list trade) :
  length (Vars.equityData (forEach ts)) = length ts
  /\ length (Vars.drawdownData (forEach ts)) = length ts.
Proof.
  induction ts as [| t ts [IHe IHd]] using rev_ind.
  - split; reflexivity.
  - rewrite forEach_snoc. simpl. rewrite !length_app, IHe, IHd. split; reflexivity.
Qed.

(** The drawdown the loop body computes from finite values. *)
Lemma body_drawdown (e p : Qc) :
  0 < p ->
  Num.mul (Num.div (Num.sub (Fin e) (Fin p)) (Fin p)) (Num.of_Z 100)
  = Fin ((e - p) / p * Qc_of_Z 100).
Proof.
  intros Hp. simpl Num.sub. rewrite div_Fin_pos by exact Hp. reflexivity.
Qed.

(** Point [i] of both curves is what the loop holds after trades 0..i. *)
Lemma forEach_points (ts : list trade) (i : nat) (t : trade) :
  ts !! i = Some t ->
  Vars.equityData (forEach ts) !! i
    = Some {| ep_date := date t; ep_equity := Fin (equity_of (take (S i) ts)) |}
  /\ Vars.drawdownData (forEach ts) !! i
    = Some {| dp_date := date t;
              dp_drawdown :=
                Fin ((equity_of (take (S i) ts) - peak_of (take (S i) ts))
                     / peak_of (take (S i) ts) * Qc_of_Z 100) |}.
Proof.
  revert i t. induction ts as [| t' ts IH] using rev_ind; intros i t Hi.
  - discriminate.
  - destruct (forEach_lengths ts) as [Le Ld].
    destruct (forEach_vars ts) as [He Hm].
    rewrite forEach_snoc. unfold forEach_body.
    cbn [Vars.equityData Vars.drawdownData Vars.equity Vars.maxEquity].
    destruct (decide (i < length ts)%nat) as [Hlt | Hge].
    + rewrite lookup_app_l in Hi by exact Hlt.
      rewrite !lookup_app_l by lia.
      rewrite take_app_le by lia. apply IH. exact Hi.
    + assert (i = length ts) as ->.
      { apply lookup_lt_Some in Hi. rewrite length_app in Hi. simpl in Hi. lia. }
      rewrite list_lookup_middle in Hi by reflexivity. injection Hi as <-.
      rewrite !list_lookup_middle by (symmetry; assumption).
      rewrite (take_ge (ts ++ [t'])) by (rewrite length_app; simpl; lia).
      rewrite He, Hm. cbn [Num.add]. rewrite max_Fin.
      rewrite <- equity_of_snoc, <- peak_of_snoc.
      rewrite body_drawdown by apply peak_of_pos. split; reflexivity.
Qed.

Lemma equity_of_take ts i : equity_of (take (S i) ts) = Claimed.equity_at ts i.
Proof. reflexivity. Qed.

Lemma peak_of_take ts i :
  (i < length ts)%nat -> peak_of (take (S i) ts) = Claimed.peak_at ts i.
Proof.
  intros Hi. unfold peak_of, Claimed.peak_at.
  rewrite length_take, Nat.min_l by lia.
  rewrite <- seq_shift, map_map. f_equal.
  apply map_ext_in. intros k Hk. apply in_seq in Hk.
  rewrite take_take, Nat.min_l by lia. reflexivity.
Qed.

Lemma peak_at_S ts i :
  Claimed.peak_at ts (S i) = Qc_max (Claimed.peak_at ts i) (Claimed.equity_at ts (S i)).
Proof.
  unfold Claimed.peak_at. rewrite (seq_S (S i)), map_app. simpl map at 2.
  apply foldr_Qc_max_snoc.
Qed.

Lemma peak_at_mono ts i j :
  (i <= j)%nat -> Claimed.peak_at ts i <= Claimed.peak_at ts j.
Proof.
  induction 1 as [| j _ IH].
  - apply Qcle_refl.
  - eapply Qcle_trans; [exact IH |]. rewrite peak_at_S. apply Qc_max_ub_l.
Qed.

End BacktestLoop.

(** ** The metrics of [mockResults] *)

Section BacktestMetrics.
Import Backtest.
Local Open Scope Qc_scope.

Lemma is_win_iff (t : trade) : is_win t = true <-> 0 < pnl t.
Proof.
  unfold is_win, Num.ltb. rewrite Qclt_alt.
  destruct (0 ?= pnl t); split; intros H; (discriminate || reflexivity).
Qed.

Lemma is_loss_iff (t : trade) : is_loss t = true <-> pnl t < 0.
Proof.
  unfold is_loss, Num.ltb. rewrite Qclt_alt.
  destruct (pnl t ?= 0); split; intros H; (discriminate || reflexivity).
Qed.

Lemma wins_filter (ts : list trade) :
  filter (fun t => is_win t = true) ts = Claimed.winning ts.
Proof. apply list_filter_iff. intros t. apply is_win_iff. Qed.

Lemma losses_filter (ts : list trade) :
  filter (fun t => is_loss t = true) ts = Claimed.losing ts.
Proof. apply list_filter_iff. intros t. apply is_loss_iff. Qed.

Lemma sum_pnl_from (ts : list trade) (acc : Qc) :
  fold_left (fun sum t => Num.add sum (Fin (pnl t))) ts (Fin acc)
  = Fin (acc + sum_Qc (map pnl ts)).
Proof.
  revert acc. induction ts as [| t ts IH]; intros acc; simpl.
  - f_equal. unfold sum_Qc. simpl. ring.
  - rewrite IH. f_equal. unfold sum_Qc. simpl. ring.
Qed.

Lemma sum_pnl_Fin (ts : list trade) : sum_pnl ts = Fin (sum_Qc (map pnl ts)).
Proof. unfold sum_pnl. rewrite sum_pnl_from. f_equal. ring. Qed.

Lemma Qc_add_pos_nonneg (a b : Qc) : 0 < a -> 0 <= b -> 0 < a + b.
Proof.
  unfold Qcle, Qclt, Qcplus. simpl. rewrite !Qred_correct. intros. lra.
Qed.

Lemma Qc_add_neg_nonpos (a b : Qc) : a < 0 -> b <= 0 -> a + b < 0.
Proof.
  unfold Qcle, Qclt, Qcplus. simpl. rewrite !Qred_correct. intros. lra.
Qed.

Lemma Qc_opp_pos (a : Qc) : a < 0 -> 0 < - a.
Proof.
  unfold Qclt, Qcopp. simpl. rewrite !Qred_correct. intros. lra.
Qed.

Lemma sum_winning_nonneg (ts : list trade) :
  0 <= sum_Qc (map pnl (Claimed.winning ts)).
Proof.
  unfold Claimed.winning. induction ts as [| t ts IH]; [apply Qcle_refl |].
  rewrite filter_cons. case_decide; [| exact IH].
  unfold sum_Qc in *. simpl.
  replace 0 with (0 + 0) by ring. apply Qcplus_le_compat; [apply Qclt_le_weak |]; assumption.
Qed.

Lemma sum_winning_pos (ts : list trade) :
  Claimed.winning ts <> [] -> 0 < sum_Qc (map pnl (Claimed.winning ts)).
Proof.
  unfold Claimed.winning. induction ts as [| t ts IH]; [intros H; exfalso; apply H; reflexivity |].
  rewrite filter_cons. case_decide as Ht; [intros _ | exact IH].
  pose proof (sum_winning_nonneg ts) as Hs. unfold Claimed.winning in Hs.
  apply Qc_add_pos_nonneg; assumption.
Qed.

Lemma sum_losing_neg (ts : list trade) :
  Claimed.losing ts <> [] -> sum_Qc (map pnl (Claimed.losing ts)) < 0.
Proof.
  unfold Claimed.losing. induction ts as [| t ts IH]; [intros H; exfalso; apply H; reflexivity |].
  rewrite filter_cons. case_decide as Ht; [intros _ | exact IH].
  destruct (decide (filter (fun t => pnl t < 0) ts = [])) as [E | NE].
  - rewrite E. unfold sum_Qc. simpl. rewrite Qcplus_0_r. exact Ht.
  - specialize (IH NE). apply Qc_add_neg_nonpos; [exact Ht |].
    apply Qclt_le_weak. exact IH.
Qed.

Lemma Qc_sign_pos (q : Qc) : 0 < q -> Num.Qc_sign q = Gt.
Proof. intros H. unfold Num.Qc_sign. apply Qcgt_alt. exact H. Qed.

Lemma Qc_sign_neg (q : Qc) : q < 0 -> Num.Qc_sign q = Lt.
Proof. intros H. unfold Num.Qc_sign. apply Qclt_alt. exact H. Qed.

Lemma Qc_of_Z_0 : Qc_of_Z 0 = 0.
Proof. apply Qc_is_canon. reflexivity. Qed.

(** [Math.abs(w / l) || 0] for a finite [w >= 0] and a finite [l < 0]. *)
Lemma abs_div_or (w l : Qc) :
  0 <= w -> l < 0 ->
  Num.or (Num.abs (Num.div (Fin w) (Fin l))) (Num.of_Z 0) = Fin (w / - l).
Proof.
  intros Hw Hl.
  assert (Hl' : l <> 0) by (intros ->; exact (Qclt_not_eq _ _ Hl eq_refl)).
  unfold Num.div. rewrite (Qc_sign_neg l Hl).
  assert (Hq : w / l <= 0).
  { unfold Qcle, Qclt, Qcdiv, Qcmult, Qcinv in *. simpl in *.
    rewrite !Qred_correct in *.
    assert (0 < / - l)%Q by (apply Qinv_lt_0_compat; lra).
    assert (Hi : (/ l == - / - l)%Q) by (field; intros E; rewrite E in Hl; lra).
    rewrite Hi. nra. }
  assert (Hnl : - l <> 0).
  { intros E. apply Hl'. rewrite <- (Qcopp_involutive l), E. ring. }
  assert (Heq : w / - l = - (w / l)) by (field; split; assumption).
  unfold Num.abs, Num.or, Num.truthy, Num.Qc_sign.
  destruct (w / l ?= 0) eqn:E.
  - apply Qceq_alt in E. rewrite Heq, E.
    change (0 ?= 0) with Eq. cbv iota. unfold Num.of_Z.
    rewrite Qc_of_Z_0. f_equal; ring.
  - assert (Hpos : 0 < - (w / l)) by (apply Qc_opp_pos, Qclt_alt, E).
    rewrite (proj1 (Qcgt_alt _ _) Hpos). f_equal. symmetry. exact Heq.
  - apply Qcgt_alt in E. exfalso. exact (Qcle_not_lt _ _ Hq E).
Qed.

End BacktestMetrics.

(** ** Claims on the backtest result *)

Section BacktestClaims.
Import Backtest.
Local Open Scope Qc_scope.
Variables selectedSymbol selectedStrategy period : string.

Let result (ts : list trade) : results :=
  mockResults selectedSymbol selectedStrategy period ts.

(** C10: the equity curve has one point per trade; point [i] holds the
    initial capital of 100000 plus the pnl of trades 0 through [i]; the
    running peak the loop holds after trade [i] is the maximum of 100000 and
    of the equity values up to [i], and it never decreases along the curve. *)
Theorem C10_equity_curve_prefix_sums (ts : list trade) (i j : nat) (t : trade) :
  ts !! i = Some t ->
  (i <= j)%nat ->
  length (equityData (result ts)) = length ts
  /\ equityData (result ts) !! i
     = Some {| ep_date := date t; ep_equity := Fin (Claimed.equity_at ts i) |}
  /\ forEach ts = fold_left forEach_body (drop (S i) ts) (forEach (take (S i) ts))
  /\ Vars.maxEquity (forEach (take (S i) ts)) = Fin (Claimed.peak_at ts i)
  /\ Claimed.peak_at ts i <= Claimed.peak_at ts j.
Proof.
  intros Hi Hij. pose proof (lookup_lt_Some _ _ _ Hi) as Hlt.
  repeat split.
  - apply forEach_lengths.
  - apply (forEach_points ts i t Hi).
  - unfold forEach. rewrite <- fold_left_app, take_drop. reflexivity.
  - rewrite (proj2 (forEach_vars _)). f_equal. apply peak_of_take. exact Hlt.
  - apply peak_at_mono. exact Hij.
Qed.

(** C2, as the code has it: point [i] of the drawdown curve is
    (equity(i) - peak(i)) / peak(i) * 100, in percent, where peak(i) is the
    maximum of 100000 and the equity values up to [i]; it is never positive,
    and it is 0 at the first point when the first trade loses nothing. *)
Theorem C2_drawdown_curve_percent (ts : list trade) (i : nat) (t : trade) :
  ts !! i = Some t ->
  drawdownData (result ts) !! i
  = Some {| dp_date := date t;
            dp_drawdown := Fin (Claimed.drawdown_percent_at ts i) |}
  /\ Claimed.drawdown_percent_at ts i <= 0
  /\ (i = 0%nat -> 0 <= pnl t -> Claimed.drawdown_percent_at ts i = 0).
Proof.
  intros Hi. pose proof (lookup_lt_Some _ _ _ Hi) as Hlt.
  pose proof (proj2 (forEach_points ts i t Hi)) as Hd.
  rewrite (peak_of_take ts i Hlt), equity_of_take in Hd.
  split; [exact Hd |].
  assert (Hpos : 0 < Claimed.peak_at ts i).
  { rewrite <- (peak_of_take ts i Hlt). apply peak_of_pos. }
  assert (Hle : Claimed.equity_at ts i <= Claimed.peak_at ts i).
  { rewrite <- (peak_of_take ts i Hlt), <- equity_of_take. apply equity_le_peak. }
  split; [apply drawdown_nonpos; assumption |].
  intros -> Hpnl. unfold Claimed.drawdown_percent_at.
  assert (Claimed.peak_at ts 0 = Claimed.equity_at ts 0) as ->.
  { apply Qcle_antisym; [| exact Hle].
    unfold Claimed.peak_at. simpl. apply Qc_max_lub; [apply Qcle_refl |].
    unfold Claimed.equity_at. destruct ts as [| t0 ts]; [discriminate |].
    injection Hi as ->. unfold sum_Qc. simpl.
    rewrite Qcplus_0_r. rewrite <- (Qcplus_0_r Claimed.initial_capital) at 1.
    apply Qcplus_le_compat; [apply Qcle_refl | exact Hpnl]. }
  unfold Qcminus. rewrite Qcplus_opp_r. unfold Qcdiv. rewrite !Qcmult_0_l.
  reflexivity.
Qed.

(** C5, as the code has it: with at least one trade in the ledger the win
    rate is the number of trades with pnl > 0 over the number of all trades,
    times 100: a percentage between 0 and 100. *)
Theorem C5_win_rate_over_all_trades (ts : list trade) :
  ts <> [] ->
  let wins := Qc_of_Z (Z.of_nat (length (Claimed.winning ts))) in
  let all := Qc_of_Z (Z.of_nat (length ts)) in
  winRate (result ts) = Fin (wins / all * Qc_of_Z 100)
  /\ 0 <= wins / all * Qc_of_Z 100 <= Qc_of_Z 100.
Proof.
  intros Hne wins all.
  assert (Hn : (0 < length ts)%nat) by (destruct ts; [congruence | simpl; lia]).
  assert (Hw : (length (Claimed.winning ts) <= length ts)%nat) by apply length_filter.
  assert (Hall : 0 < all).
  { unfold all, Qclt. simpl. unfold Qlt. simpl. lia. }
  split.
  - unfold result, mockResults. cbn [winRate]. rewrite wins_filter.
    unfold Num.of_nat, Num.of_Z. rewrite div_Fin_pos by exact Hall. reflexivity.
  - unfold Qcle, Qclt, Qcdiv, Qcmult, Qcinv in *. subst wins all. simpl in *.
    rewrite !Qred_correct.
    set (w := Z.of_nat (length (Claimed.winning ts))) in *.
    set (n := Z.of_nat (length ts)) in *.
    assert (Hwn : (inject_Z w <= inject_Z n)%Q) by (rewrite <- Zle_Qle; lia).
    assert (Hw0 : (0 <= inject_Z w)%Q) by (change 0%Q with (inject_Z 0); rewrite <- Zle_Qle; lia).
    assert (Hinv : (0 < / inject_Z n)%Q) by (apply Qinv_lt_0_compat; exact Hall).
    assert (Hone : (inject_Z n * / inject_Z n == 1)%Q).
    { apply Qmult_inv_r. intros E. rewrite E in Hall. revert Hall. apply Qlt_irrefl. }
    change (inject_Z 100) with 100%Q.
    set (a := inject_Z w) in *. set (b := inject_Z n) in *. set (c := (/ b)%Q) in *.
    split; nra.
Qed.

(** C6, as the code has it: the reported Sharpe ratio is the literal 1.45
    for every ledger; it is never null. *)
Theorem C6_sharpe_is_a_literal (ts : list trade) :
  sharpeRatio (result ts) = VNum (Fin (Num.cents 145))
  /\ sharpeRatio (result ts) <> VNull.
Proof. split; [reflexivity | discriminate]. Qed.

(** C7, as the code has it: [totalReturn] is the currency difference
    final - initial, which is the sum of the pnl of the ledger, and the
    fraction of the initial equity is reported, times 100, as
    [totalReturnPercentage]. *)
Theorem C7_total_return_is_a_difference (ts : list trade) :
  finalCapital (result ts) = Fin (Claimed.initial_capital + sum_Qc (map pnl ts))
  /\ totalReturn (result ts)
     = Num.sub (finalCapital (result ts)) (initialCapital (result ts))
  /\ totalReturn (result ts) = Fin (sum_Qc (map pnl ts))
  /\ totalReturnPercentage (result ts)
     = Num.mul (Claimed.total_return (result ts)) (Num.of_Z 100)
  /\ Claimed.total_return (result ts)
     = Fin (sum_Qc (map pnl ts) / Claimed.initial_capital).
Proof.
  pose proof (proj1 (forEach_vars ts)) as He.
  unfold Claimed.total_return, result, mockResults.
  cbn [finalCapital totalReturn totalReturnPercentage initialCapital].
  rewrite He. unfold equity_of.
  assert (Hsub : Num.sub (Fin (Claimed.initial_capital + sum_Qc (map pnl ts)))
                   (Num.of_Z 100000) = Fin (sum_Qc (map pnl ts))).
  { unfold Num.sub, Num.of_Z. simpl. f_equal.
    change (Qc_of_Z 100000) with Claimed.initial_capital. ring. }
  rewrite Hsub. repeat split.
Qed.

(** C8: the profit factor is sum(winning P&L) / abs(sum(losing P&L)).  On
    the ledger of [runBacktest], whatever is selected, the winning P&L is
    2000, the losing P&L is -400 and the profit factor is 2000 / 400 = 5; on
    every ledger with a losing trade it is that quotient of rationals; and
    with winning trades and no losing trade it is infinite. *)
Theorem C8_profit_factor :
  (profitFactor (result trades)
   = Fin (sum_Qc (map pnl (Claimed.winning trades))
          / Qc_abs (sum_Qc (map pnl (Claimed.losing trades))))
   /\ sum_Qc (map pnl (Claimed.winning trades)) = Qc_of_Z 2000
   /\ sum_Qc (map pnl (Claimed.losing trades)) = Qc_of_Z (-400)
   /\ profitFactor (result trades) = Fin (Qc_of_Z 5))
  /\ (forall ts, Claimed.losing ts <> [] ->
      profitFactor (result ts)
      = Fin (sum_Qc (map pnl (Claimed.winning ts))
             / Qc_abs (sum_Qc (map pnl (Claimed.losing ts)))))
  /\ (forall ts, Claimed.winning ts <> [] -> Claimed.losing ts = [] ->
      profitFactor (result ts) = PInf).
Proof.
  assert (Hgen : forall ts, Claimed.losing ts <> [] ->
            profitFactor (result ts)
            = Fin (sum_Qc (map pnl (Claimed.winning ts))
                   / Qc_abs (sum_Qc (map pnl (Claimed.losing ts))))).
  { intros ts Nl. unfold result, mockResults. cbn [profitFactor].
    rewrite wins_filter, losses_filter, !sum_pnl_Fin.
    pose proof (sum_winning_nonneg ts) as Hw.
    pose proof (sum_losing_neg ts Nl) as Hneg.
    rewrite abs_div_or by assumption.
    unfold Qc_abs. rewrite (proj1 (Qclt_alt _ _) Hneg). reflexivity. }
  split; [| split; [exact Hgen |]].
  - assert (Nl : Claimed.losing trades <> []) by (vm_compute; discriminate).
    assert (HW : sum_Qc (map pnl (Claimed.winning trades)) = Qc_of_Z 2000)
      by (apply Qc_is_canon; reflexivity).
    assert (HL : sum_Qc (map pnl (Claimed.losing trades)) = Qc_of_Z (-400))
      by (apply Qc_is_canon; reflexivity).
    split; [exact (Hgen trades Nl) |]. split; [exact HW |]. split; [exact HL |].
    rewrite (Hgen trades Nl), HW, HL. f_equal. apply Qc_is_canon. reflexivity.
  - intros ts Hwin El. unfold result, mockResults. cbn [profitFactor].
    rewrite wins_filter, losses_filter, !sum_pnl_Fin.
    pose proof (sum_winning_pos ts Hwin) as Hpos.
    rewrite El. unfold sum_Qc at 2. simpl.
    unfold Num.div. change (Num.Qc_sign 0) with Eq. cbv iota.
    rewrite (Qc_sign_pos _ Hpos). reflexivity.
Qed.

End BacktestClaims.

(** ** The ledger of [runBacktest] *)

Section MockLedger.
Import Backtest.
Local Open Scope Qc_scope.

Lemma C10_witness :
  trades !! 3%nat
  = Some {| date := "2024-02-10"; act := SELL; price := Num.cents 14800;
            quantity := Qc_of_Z 100; pnl := Qc_of_Z (-400) |}
  /\ (3 <= 5)%nat
  /\ equityData runBacktest !! 3%nat
     = Some {| ep_date := "2024-02-10";
               ep_equity := Fin (Claimed.equity_at trades 3) |}
  /\ Claimed.peak_at trades 3 <= Claimed.peak_at trades 5.
Proof.
  assert (H3 : (3 <= 5)%nat) by (repeat constructor).
  split; [reflexivity |]. split; [exact H3 |].
  destruct (C10_equity_curve_prefix_sums "AAPL" "sma_crossover" "1y" trades 3 5 _
              eq_refl H3) as (_ & Hp & _ & _ & Hm).
  split; [exact Hp | exact Hm].
Defined.

(** C2, as stated, fails on the ledger of [runBacktest]: the fourth point of
    the drawdown curve is -80/201 (percent), not the fraction -4/1005. *)
Lemma C2_drawdown_is_not_the_fraction :
  dp_drawdown <$> (drawdownData runBacktest !! 3%nat)
  <> Some (Fin (Claimed.drawdown_at trades 3)).
Proof.
  intros H. vm_compute in H. injection H as H. discriminate H.
Qed.

Lemma C2_witness :
  trades !! 0%nat
  = Some {| date := "2024-01-15"; act := BUY; price := Num.cents 15000;
            quantity := Qc_of_Z 100; pnl := Qc_of_Z 0 |}
  /\ drawdownData runBacktest !! 0%nat
     = Some {| dp_date := "2024-01-15";
               dp_drawdown := Fin (Claimed.drawdown_percent_at trades 0) |}
  /\ Claimed.drawdown_percent_at trades 0 = 0.
Proof.
  split; [reflexivity |].
  destruct (C2_drawdown_curve_percent "AAPL" "sma_crossover" "1y" trades 0 _
              eq_refl) as (Hd & _ & H0).
  split; [exact Hd |]. apply H0; [reflexivity |]. discriminate.
Defined.

(** C5, as stated, fails on the ledger of [runBacktest]: two winning trades
    out of six trades give 100/3 (percent), not 2 winning trades over the 3
    closing trades. *)
Lemma C5_win_rate_is_not_over_closing_trades :
  Claimed.win_rate trades = Fin (Q2Qc (2 # 3))
  /\ winRate runBacktest <> Claimed.win_rate trades.
Proof.
  split.
  - apply (f_equal Fin). apply Qc_is_canon. reflexivity.
  - intros H. vm_compute in H. injection H as H. discriminate H.
Qed.

Lemma C5_witness :
  trades <> []
  /\ winRate runBacktest
     = Fin (Qc_of_Z (Z.of_nat (length (Claimed.winning trades)))
            / Qc_of_Z (Z.of_nat (length trades)) * Qc_of_Z 100).
Proof.
  assert (Hne : trades <> []) by discriminate.
  split; [exact Hne |].
  exact (proj1 (C5_win_rate_over_all_trades "AAPL" "sma_crossover" "1y" trades Hne)).
Defined.

(** C7, as stated, fails on the ledger of [runBacktest]: the total return
    is reported as 1600 (currency), not as the fraction 2/125. *)
Lemma C7_total_return_is_not_a_fraction :
  totalReturn runBacktest = Fin (Qc_of_Z 1600)
  /\ Claimed.total_return runBacktest = Fin (Q2Qc (2 # 125))
  /\ totalReturn runBacktest <> Claimed.total_return runBacktest.
Proof.
  split; [| split].
  - apply (f_equal Fin). apply Qc_is_canon. reflexivity.
  - apply (f_equal Fin). apply Qc_is_canon. reflexivity.
  - intros H. vm_compute in H. injection H as H. discriminate H.
Qed.

(** C6, as stated, fails on the ledger of [runBacktest]: the Sharpe ratio
    is reported as 1.45, and 1.45 is not mean / stdev * sqrt(n) of the period
    returns of the equity curve for any number [n] of periods per year.  If
    it were, 1.45^2 * variance = mean^2 * n would hold; it does not, with the
    variance over [N] or over [N - 1], and with the returns counted from the
    first point of the curve or from the initial capital.  The standard
    deviation is not 0 on this ledger. *)
Lemma C6_sharpe_is_not_the_ratio_of_the_returns :
  let s := Num.cents 145 in
  let returns := Claimed.period_returns (Claimed.curve runBacktest) in
  let returns0 :=
    Claimed.period_returns (Claimed.initial_capital :: Claimed.curve runBacktest) in
  sharpeRatio runBacktest = VNum (Fin s)
  /\ Claimed.variance returns <> 0
  /\ forall n : Z,
       s * s * Claimed.variance returns <> mean returns * mean returns * Qc_of_Z n
       /\ s * s * sample_variance returns <> mean returns * mean returns * Qc_of_Z n
       /\ s * s * Claimed.variance returns0
          <> mean returns0 * mean returns0 * Qc_of_Z n
       /\ s * s * sample_variance returns0
          <> mean returns0 * mean returns0 * Qc_of_Z n.
Proof.
  intros s returns returns0.
  assert (Hno : forall a b : Qc,
            b <> 0 -> Qden (this (a / b)) <> 1%positive ->
            forall n : Z, a <> b * Qc_of_Z n).
  { intros a b Hb Hden n H. apply Hden. rewrite H.
    replace (b * Qc_of_Z n / b) with (Qc_of_Z n) by (field; exact Hb).
    reflexivity. }
  assert (Hnz : forall q : Qc, Qnum (this q) <> 0%Z -> q <> 0).
  { intros q Hq E. apply Hq. rewrite E. reflexivity. }
  split; [reflexivity |]. split.
  - apply Hnz. vm_compute. discriminate.
  - intros n. repeat split; apply Hno;
      try (apply Hnz; vm_compute; discriminate); vm_compute; discriminate.
Qed.

End MockLedger.

(** ** [computeSMA] in the store *)

Section ChartRun.
Import Store Chart.

Lemma slice_Forall2 {A B} (R : A -> B -> Prop) (a : list A) (b : list B) s e :
  Forall2 R a b -> Forall2 R (slice a s e) (slice b s e).
Proof.
  intros H. unfold slice. rewrite (Forall2_length _ _ _ H).
  apply Forall2_take, Forall2_drop, H.
Qed.

Lemma reduce_items_run (h : store) (items : list loc) (ops : list number) acc :
  Forall2 (fun e c => exists o, h !! e = Some (Obj o) /\ Close_operand o = Some c)
    items ops ->
  reduce_items items acc h = Some (fold_left Num.add ops acc, h).
Proof.
  intros H. revert acc. induction H as [| e c items ops (o & Ho & Hc) _ IH]; intros acc.
  - reflexivity.
  - simpl. unfold mbind, store_bind, bind, read_obj. rewrite Ho, Hc. apply IH.
Qed.

Lemma elems_operands (h hc : store) (elems : list loc)
    (rows : list (gmap string value)) (ops : list number) :
  h `prefix_of` hc ->
  holds_rows h elems rows ->
  Forall2 (fun o c => Close_operand o = Some c) rows ops ->
  Forall2 (fun e c => exists o, hc !! e = Some (Obj o) /\ Close_operand o = Some c)
    elems ops.
Proof.
  intros Hpre Hrows. revert ops.
  induction Hrows as [| e o es os He _ IH]; intros ops Hops.
  - inversion Hops. constructor.
  - inversion Hops as [| ? c ? cs Hc Hcs]; subst. constructor.
    + exists o. split; [| exact Hc]. eapply prefix_lookup_Some; eassumption.
    + apply IH. exact Hcs.
Qed.

Variables (h : store) (data : loc) (elems : list loc).
Variables (rows : list (gmap string value)) (ops : list number).
Variable period : Z.
Hypothesis Hdata : h !! data = Some (Arr elems).
Hypothesis Hrows : holds_rows h elems rows.
Hypothesis Hops : Forall2 (fun o c => Close_operand o = Some c) rows ops.

(** One call of the arrow function: a new object, the store only grows. *)
Lemma callback_run (hc : store) (d : loc) (o : gmap string value) (i : nat) :
  h `prefix_of` hc ->
  h !! d = Some (Obj o) ->
  exists e' hc',
    callback data period d i hc = Some (e', hc')
    /\ hc `prefix_of` hc'
    /\ (length hc <= e')%nat
    /\ hc' !! e' = Some (Obj (<["sma" := sma_value ops period i]> o)).
Proof.
  intros Hpre Hd.
  assert (Hd' : hc !! d = Some (Obj o)) by exact (prefix_lookup_Some _ _ _ _ Hd Hpre).
  assert (Hdata' : hc !! data = Some (Arr elems))
    by exact (prefix_lookup_Some _ _ _ _ Hdata Hpre).
  unfold callback, sma_value. destruct (Z.of_nat i <? period - 1).
  - exists (length hc), (hc ++ [Obj (<["sma" := VNull]> o)]).
    unfold mbind, store_bind, bind, read_obj, alloc. rewrite Hd'.
    split; [reflexivity |]. split; [apply prefix_app_r; reflexivity |].
    split; [lia |]. apply list_lookup_middle. reflexivity.
  - set (sl := slice elems (Z.of_nat i - period + 1) (Z.of_nat i + 1)).
    set (hs := hc ++ [Arr sl]).
    assert (Hs : h `prefix_of` hs).
    { etransitivity; [exact Hpre | apply prefix_app_r; reflexivity]. }
    pose proof (slice_Forall2 _ _ _ (Z.of_nat i - period + 1) (Z.of_nat i + 1)
                  (elems_operands h hs elems rows ops Hs Hrows Hops)) as Hsl.
    fold sl in Hsl.
    assert (Hl : hs !! length hc = Some (Arr sl)) by (apply list_lookup_middle; reflexivity).
    assert (Hd'' : hs !! d = Some (Obj o)) by exact (prefix_lookup_Some _ _ _ _ Hd Hs).
    assert (Hlen : length hs = S (length hc)) by (unfold hs; rewrite length_app; simpl; lia).
    eexists (S (length hc)), (hs ++ [Obj _]).
    split.
    + unfold mbind, store_bind, bind, array_slice.
      unfold mbind, store_bind, bind, read_arr, alloc. rewrite Hdata'.
      fold sl. fold hs. unfold reduce_Close.
      unfold mbind, store_bind, bind, read_arr. rewrite Hl.
      rewrite (reduce_items_run hs _ _ _ Hsl).
      unfold read_obj. rewrite Hd'', Hlen. reflexivity.
    + split; [unfold hs; rewrite <- app_assoc; apply prefix_app_r; reflexivity |].
      split; [lia |]. apply list_lookup_middle. symmetry. exact Hlen.
Qed.

Lemma map_from_run (suf : list loc) (rows_suf : list (gmap string value)) :
  holds_rows h suf rows_suf ->
  forall (i : nat) (hc : store),
  h `prefix_of` hc ->
  exists rs hc',
    map_from (callback data period) suf i hc = Some (rs, hc')
    /\ hc `prefix_of` hc'
    /\ length rs = length suf
    /\ forall k o, rows_suf !! k = Some o ->
         exists e', rs !! k = Some e'
           /\ (length hc <= e')%nat
           /\ hc' !! e' = Some (Obj (<["sma" := sma_value ops period (i + k)]> o)).
Proof.
  induction 1 as [| d o suf rows_suf Hd _ IH]; intros i hc Hpre.
  - exists [], hc. repeat split; [reflexivity |]. intros k o Hk. discriminate.
  - destruct (callback_run hc d o i Hpre Hd) as (e1 & hc1 & Hc & Hp1 & Hf1 & Ho1).
    assert (Hpre1 : h `prefix_of` hc1) by (etransitivity; eassumption).
    destruct (IH (S i) hc1 Hpre1) as (rs & hc' & Hm & Hp' & Hlen & Hall).
    exists (e1 :: rs), hc'. simpl.
    unfold mbind, store_bind, bind at 1. rewrite Hc.
    unfold bind at 1. rewrite Hm. unfold mret, store_ret, ret.
    repeat split.
    + etransitivity; eassumption.
    + simpl. rewrite Hlen. reflexivity.
    + intros [| k] o' Hk.
      * injection Hk as <-. exists e1. rewrite Nat.add_0_r.
        repeat split; [exact Hf1 |]. eapply prefix_lookup_Some; eassumption.
      * destruct (Hall k o' Hk) as (e' & He' & Hfresh & Hobj).
        exists e'. rewrite <- Nat.add_succ_comm. repeat split; [exact He' | | exact Hobj].
        apply prefix_length in Hp1. lia.
Qed.

(** The whole call: the result array and its objects are new, and every
    cell of the store before the call is as it was. *)
Lemma computeSMA_run :
  exists out outs h',
    computeSMA data period h = Some (out, h')
    /\ h `prefix_of` h'
    /\ (length h <= out)%nat
    /\ h' !! out = Some (Arr outs)
    /\ length outs = length elems
    /\ forall i o, rows !! i = Some o ->
         exists e', outs !! i = Some e'
           /\ (length h <= e')%nat
           /\ h' !! e' = Some (Obj (<["sma" := sma_value ops period i]> o)).
Proof.
  destruct (map_from_run elems rows Hrows 0%nat h) as (rs & hc' & Hm & Hp & Hlen & Hall);
    [reflexivity |].
  exists (length hc'), rs, (hc' ++ [Arr rs]).
  unfold computeSMA, array_map.
  unfold mbind, store_bind, bind, read_arr, alloc. rewrite Hdata, Hm.
  repeat split.
  - etransitivity; [exact Hp | apply prefix_app_r; reflexivity].
  - apply prefix_length. exact Hp.
  - apply list_lookup_middle. reflexivity.
  - exact Hlen.
  - intros i o Hi. destruct (Hall i o Hi) as (e' & He' & Hf & Ho).
    exists e'. repeat split; [exact He' | exact Hf |].
    apply lookup_app_l_Some. exact Ho.
Qed.

End ChartRun.

(** ** Claims on [computeSMA] *)

Section ChartClaims.
Import Store Chart.
Local Open Scope Qc_scope.

Lemma fold_add_Fin (l : list Qc) (acc : Qc) :
  fold_left Num.add (map Fin l) (Fin acc) = Fin (acc + sum_Qc l).
Proof.
  revert acc. induction l as [| q l IH]; intros acc; simpl.
  - f_equal. unfold sum_Qc. simpl. ring.
  - rewrite IH. f_equal. unfold sum_Qc. simpl. ring.
Qed.

Lemma slice_map {A B} (f : A -> B) (a : list A) s e :
  slice (map f a) s e = map f (slice a s e).
Proof.
  unfold slice. rewrite length_map, <- firstn_map, <- skipn_map. reflexivity.
Qed.

Lemma slice_trailing (closes : list Qc) (period : Z) (i : nat) :
  (1 <= period)%Z -> (period - 1 <= Z.of_nat i)%Z -> (i < length closes)%nat ->
  slice closes (Z.of_nat i - period + 1) (Z.of_nat i + 1)
  = Claimed.trailing closes (Z.to_nat period) i
  /\ length (Claimed.trailing closes (Z.to_nat period) i) = Z.to_nat period.
Proof.
  intros Hp Hi Hlt. unfold slice, Claimed.trailing.
  destruct (Z.ltb_spec (Z.of_nat i - period + 1) 0); [lia |].
  destruct (Z.ltb_spec (Z.of_nat i + 1) 0); [lia |].
  rewrite !Z.min_l by lia.
  replace (Z.to_nat (Z.of_nat i + 1 - (Z.of_nat i - period + 1))) with (Z.to_nat period) by lia.
  replace (Z.to_nat (Z.of_nat i - period + 1)) with (S i - Z.to_nat period)%nat by lia.
  split; [reflexivity |].
  rewrite length_take, length_drop. lia.
Qed.

Lemma sma_value_numeric (closes : list Qc) (period : Z) (i : nat) :
  (1 <= period)%Z -> (i < length closes)%nat ->
  sma_value (map Fin closes) period i
  = if (Z.of_nat i <? period - 1)%Z then VNull
    else VNum (Fin (mean (Claimed.trailing closes (Z.to_nat period) i))).
Proof.
  intros Hp Hlt. unfold sma_value.
  destruct (Z.ltb_spec (Z.of_nat i) (period - 1)) as [| Hi]; [reflexivity |].
  destruct (slice_trailing closes period i Hp Hi Hlt) as [Hs Hl].
  rewrite slice_map, Hs, fold_add_Fin. unfold Num.of_Z.
  rewrite div_Fin_pos.
  - unfold mean. rewrite Hl, Z2Nat.id by lia. do 3 f_equal. ring.
  - unfold Qclt. simpl. unfold Qlt. simpl. lia.
Qed.

Lemma numeric_operands (rows : list (gmap string value)) (closes : list Qc) :
  Forall2 (fun o q => o !! "Close" = Some (VNum (Fin q))) rows closes ->
  Forall2 (fun o c => Close_operand o = Some c) rows (map Fin closes).
Proof.
  induction 1 as [| o q rows closes Hq _ IH]; simpl; constructor.
  - unfold Close_operand. rewrite Hq. reflexivity.
  - exact IH.
Qed.

Variables (h : store) (data : loc) (elems : list loc).
Variable rows : list (gmap string value).
Variable period : Z.
Hypothesis Hdata : h !! data = Some (Arr elems).
Hypothesis Hrows : holds_rows h elems rows.


(** C4, as the code has it: [computeSMA] never fails and leaves every cell
    of the store as it was (its input is not mutated); on an input shorter
    than the period it returns an array as long as the input in which every
    [sma] is null. *)
Theorem C4_short_input_gives_nulls (ops : list number) :
  Forall2 (fun o c => Close_operand o = Some c) rows ops ->
  ~ fails (computeSMA data period) h
  /\ exists out outs h',
       computeSMA data period h = Some (out, h')
       /\ (forall l c, h !! l = Some c -> h' !! l = Some c)
       /\ h' !! out = Some (Arr outs)
       /\ length outs = length elems
       /\ ((Z.of_nat (length elems) < period)%Z ->
           forall i e, outs !! i = Some e ->
             exists o, h' !! e = Some (Obj o) /\ o !! "sma" = Some VNull).
Proof.
  intros Hops.
  destruct (computeSMA_run h data elems rows ops period Hdata Hrows Hops)
    as (out & outs & h' & Hrun & Hpre & _ & Hout & Hlen & Hall).
  split; [unfold fails; rewrite Hrun; discriminate |].
  exists out, outs, h'. repeat split; [exact Hrun | | exact Hout | exact Hlen |].
  - intros l c Hl. eapply prefix_lookup_Some; eassumption.
  - intros Hshort i e He.
    assert (Hi : (i < length outs)%nat) by (eapply lookup_lt_Some; exact He).
    assert (Hle : length elems = length rows) by (eapply Forall2_length; exact Hrows).
    destruct (lookup_lt_is_Some_2 rows i) as [o Ho]; [lia |].
    destruct (Hall i o Ho) as (e' & He' & _ & Hobj).
    rewrite He in He'. injection He' as <-.
    eexists. split; [exact Hobj |].
    rewrite lookup_insert_eq. unfold sma_value.
    destruct (Z.ltb_spec (Z.of_nat i) (period - 1)); [reflexivity | lia].
Qed.

(** C9: [computeSMA] returns a new array; no cell of the store before the
    call changes (the input array and its elements are as they were);
    element [i] of the result is a new object that is element [i] of the
    input with the field [sma] set: every other field is carried
    unchanged. *)
Theorem C9_computeSMA_frame (ops : list number) (i : nat) (e : loc)
    (o : gmap string value) :
  Forall2 (fun o c => Close_operand o = Some c) rows ops ->
  elems !! i = Some e ->
  h !! e = Some (Obj o) ->
  exists out outs h',
    computeSMA data period h = Some (out, h')
    /\ (forall l c, h !! l = Some c -> h' !! l = Some c)
    /\ h !! out = None
    /\ h' !! out = Some (Arr outs)
    /\ length outs = length elems
    /\ h' !! data = Some (Arr elems)
    /\ h' !! e = Some (Obj o)
    /\ exists e' v,
         outs !! i = Some e'
         /\ h !! e' = None
         /\ h' !! e' = Some (Obj (<["sma" := v]> o))
         /\ forall k, k <> "sma" -> (<["sma" := v]> o) !! k = o !! k.
Proof.
  intros Hops Hi He.
  destruct (computeSMA_run h data elems rows ops period Hdata Hrows Hops)
    as (out & outs & h' & Hrun & Hpre & Hfresh & Hout & Hlen & Hall).
  assert (Hkeep : forall l c, h !! l = Some c -> h' !! l = Some c).
  { intros l c Hl. eapply prefix_lookup_Some; eassumption. }
  assert (Ho : rows !! i = Some o).
  { destruct (Forall2_lookup_l _ _ _ _ _ Hrows Hi) as (o' & Ho' & Hobj).
    rewrite He in Hobj. injection Hobj as <-. exact Ho'. }
  destruct (Hall i o Ho) as (e' & He' & Hf & Hobj).
  exists out, outs, h'.
  repeat split; [exact Hrun | exact Hkeep | | exact Hout | exact Hlen | | |].
  - apply lookup_ge_None. exact Hfresh.
  - apply Hkeep. exact Hdata.
  - apply Hkeep. exact He.
  - exists e', (sma_value ops period i).
    repeat split; [exact He' | | exact Hobj |].
    + apply lookup_ge_None. exact Hf.
    + intros k Hk. apply lookup_insert_ne. congruence.
Qed.

End ChartClaims.

(** ** [computeSMA] on concrete stores *)

Section ChartExamples.
Import Store Chart.
Local Open Scope Qc_scope.

Lemma sample_holds_rows : holds_rows sample_store [0; 1; 2; 3]%nat sample_rows.
Proof. repeat constructor. Defined.

Lemma sample_numeric :
  Forall2 (fun o q => o !! "Close" = Some (VNum (Fin q))) sample_rows sample_closes.
Proof. repeat constructor. Defined.


(** C4, as stated, fails on one bar and the default period of 20: the call
    does not fail, it returns the bar with a null [sma]. *)
Lemma C4_short_input_does_not_fail :
  (Z.of_nat (length [one_bar]) < default_period)%Z
  /\ computeSMA 1%nat default_period one_bar_store
     = Some (3%nat,
             one_bar_store ++ [Obj (<["sma" := VNull]> one_bar); Arr [2%nat]])
  /\ ~ fails (computeSMA 1%nat default_period) one_bar_store.
Proof.
  split; [reflexivity |]. split; [reflexivity |].
  unfold fails. discriminate.
Qed.

Lemma one_bar_operand :
  Forall2 (fun o c => Close_operand o = Some c) [one_bar] [Fin (Num.cents 15000)].
Proof. repeat constructor. Defined.

Lemma one_bar_holds_rows : holds_rows one_bar_store [0%nat] [one_bar].
Proof. repeat constructor. Defined.

Lemma C4_witness :
  ~ fails (computeSMA 1%nat default_period) one_bar_store
  /\ exists out outs h',
       computeSMA 1%nat default_period one_bar_store = Some (out, h')
       /\ (forall l c, one_bar_store !! l = Some c -> h' !! l = Some c)
       /\ h' !! out = Some (Arr outs)
       /\ forall i e, outs !! i = Some e ->
            exists o, h' !! e = Some (Obj o) /\ o !! "sma" = Some VNull.
Proof.
  destruct (C4_short_input_gives_nulls one_bar_store 1%nat [0%nat] [one_bar]
              default_period eq_refl one_bar_holds_rows _ one_bar_operand)
    as (Hnf & out & outs & h' & Hrun & Hkeep & Hout & _ & Hnull).
  split; [exact Hnf |].
  exists out, outs, h'. repeat split; [exact Hrun | exact Hkeep | exact Hout |].
  apply Hnull. reflexivity.
Defined.

Lemma sample_operands :
  Forall2 (fun o c => Close_operand o = Some c) sample_rows (map Fin sample_closes).
Proof. repeat constructor. Defined.

Lemma C9_witness :
  exists out outs h',
    computeSMA 4%nat 2 sample_store = Some (out, h')
    /\ (forall l c, sample_store !! l = Some c -> h' !! l = Some c)
    /\ sample_store !! out = None
    /\ h' !! out = Some (Arr outs)
    /\ exists e' v,
         outs !! 1%nat = Some e'
         /\ sample_store !! e' = None
         /\ h' !! e' = Some (Obj (<["sma" := v]> (bar "2024-01-16" 2))).
Proof.
  destruct (C9_computeSMA_frame sample_store 4%nat [0; 1; 2; 3]%nat sample_rows 2
              eq_refl sample_holds_rows (map Fin sample_closes) 1%nat 1%nat
              (bar "2024-01-16" 2) sample_operands eq_refl eq_refl)
    as (out & outs & h' & Hrun & Hkeep & Hnew & Hout & _ & _ & _ & e' & v & He' & Hf & Ho & _).
  exists out, outs, h'. repeat split; [exact Hrun | exact Hkeep | exact Hnew | exact Hout |].
  exists e', v. repeat split; assumption.
Defined.

End ChartExamples.

(** ** Claims on the Portfolio view *)

Section PortfolioClaims.
Import Portfolio.
Local Open Scope Qc_scope.

Lemma allocation_values_from (ps : list position) (f : nat -> nat) :
  map value
    (imap (fun i position =>
             {| name := symbol position;
                value := Num.mul (Fin (shares position)) (Fin (currentPrice position));
                fill := default "" (colours !! f i) |}) ps)
  = map (fun p => Fin (shares p * currentPrice p)) ps.
Proof.
  revert f. induction ps as [| p ps IH]; intros f; [reflexivity |].
  simpl. f_equal. apply (IH (f ∘ S)).
Qed.

Lemma total_pnl_from (ps : list position) (acc : Qc) :
  fold_left
    (fun total position =>
       Num.add total
         (calculatePnL (Fin (shares position)) (Fin (avgPrice position))
            (Fin (currentPrice position)))) ps (Fin acc)
  = Fin (acc + sum_Qc (map (fun p => shares p * currentPrice p) ps)
         - sum_Qc (map (fun p => shares p * avgPrice p) ps)).
Proof.
  revert acc. induction ps as [| p ps IH]; intros acc; simpl.
  - f_equal. unfold sum_Qc. simpl. ring.
  - rewrite IH. f_equal. unfold sum_Qc. simpl. ring.
Qed.

(** C1, as the code has it: the view shows the stored [totalValue]; the
    value shown for each position is shares times current price, so the
    allocation values add up to the sum over positions of shares times
    current price, and the total P&L shown is that sum minus the sum of
    shares times average entry price. *)
Theorem C1_portfolio_view (s : state) :
  shown_totalValue (render s) = Fin (totalValue s)
  /\ shown_cash (render s) = Fin (cash s)
  /\ map value (shown_allocation (render s))
     = map (fun p => Fin (shares p * currentPrice p)) (positions s)
  /\ Num.sum (map value (shown_allocation (render s)))
     = Fin (Claimed.holdings_value s)
  /\ shown_totalPnL (render s)
     = Fin (Claimed.holdings_value s - Claimed.cost_basis s).
Proof.
  assert (Hv : map value (allocationData s)
               = map (fun p => Fin (shares p * currentPrice p)) (positions s)).
  { unfold allocationData. apply (allocation_values_from _ (fun i => (i mod 3)%nat)). }
  repeat split.
  - exact Hv.
  - cbn [shown_allocation render]. rewrite Hv. unfold Num.sum.
    rewrite <- (map_map (fun p => shares p * currentPrice p) Fin), fold_add_Fin.
    f_equal. unfold Claimed.holdings_value. ring.
  - cbn [shown_totalPnL render]. unfold totalPnL, calculateTotalPnL.
    rewrite total_pnl_from. f_equal.
    unfold Claimed.holdings_value, Claimed.cost_basis. ring.
Qed.

(** C1, as stated, fails on the state of the component: the total value
    shown is 100000, while cash plus shares times current price over the
    positions is 164654. *)
Lemma C1_total_value_is_not_cash_plus_holdings :
  Claimed.portfolio_value portfolio = Qc_of_Z 164654
  /\ shown_totalValue (render portfolio) = Fin (Qc_of_Z 100000)
  /\ shown_totalValue (render portfolio)
     <> Num.add (shown_cash (render portfolio))
                (Num.sum (map value (shown_allocation (render portfolio))))
  /\ shown_totalValue (render portfolio) <> Fin (Claimed.portfolio_value portfolio).
Proof.
  split; [apply Qc_is_canon; reflexivity |].
  split; [reflexivity |].
  split; intros H; vm_compute in H; injection H as H; discriminate H.
Qed.

End PortfolioClaims.

(** With neither a winning nor a losing trade the quotient is 0/0, and the
    profit factor is reported as 0. *)
Example profit_factor_without_pnl :
  Backtest.profitFactor
    (Backtest.mockResults "AAPL" "sma_crossover" "1y" (take 1 Backtest.trades))
  = Num.of_Z 0.
Proof. reflexivity. Qed.

(** ** Further properties of the backtest result *)

Section BacktestExtras.
Import Backtest.
Local Open Scope Qc_scope.
Variables selectedSymbol selectedStrategy period : string.

Let result (ts : list trade) : results :=
  mockResults selectedSymbol selectedStrategy period ts.

Lemma drawdown_percent_nonpos (ts : list trade) (i : nat) :
  (i < length ts)%nat -> Claimed.drawdown_percent_at ts i <= 0.
Proof.
  intros Hlt. apply drawdown_nonpos.
  - rewrite <- (peak_of_take ts i Hlt). apply peak_of_pos.
  - rewrite <- (peak_of_take ts i Hlt), <- equity_of_take. apply equity_le_peak.
Qed.

Lemma drawdown_values (ts : list trade) :
  map dp_drawdown (Vars.drawdownData (forEach ts))
  = map (fun i => Fin (Claimed.drawdown_percent_at ts i)) (seq 0 (length ts)).
Proof.
  apply list_eq. intros i.
  change (map dp_drawdown (Vars.drawdownData (forEach ts)))
    with (dp_drawdown <$> Vars.drawdownData (forEach ts)).
  change (map (fun i => Fin (Claimed.drawdown_percent_at ts i)) (seq 0 (length ts)))
    with ((fun i => Fin (Claimed.drawdown_percent_at ts i)) <$> seq 0 (length ts)).
  rewrite !list_lookup_fmap.
  destruct (ts !! i) as [t |] eqn:Hi.
  - pose proof (lookup_lt_Some _ _ _ Hi) as Hlt.
    rewrite (proj2 (forEach_points ts i t Hi)), lookup_seq_lt by exact Hlt.
    simpl. rewrite (peak_of_take ts i Hlt), equity_of_take. reflexivity.
  - apply lookup_ge_None in Hi.
    rewrite (lookup_ge_None_2 (Vars.drawdownData _))
      by (rewrite (proj2 (forEach_lengths ts)); exact Hi).
    rewrite lookup_seq_ge by exact Hi. reflexivity.
Qed.

Lemma Qc_min_spec (a b : Qc) :
  (b < a /\ Qc_min a b = b) \/ (a <= b /\ Qc_min a b = a).
Proof.
  unfold Qc_min. destruct (b ?= a) eqn:E.
  - right. apply Qceq_alt in E. subst. split; [apply Qcle_refl | reflexivity].
  - left. split; [apply Qclt_alt; exact E | reflexivity].
  - right. split; [| reflexivity]. apply Qclt_le_weak. apply Qcgt_alt in E. exact E.
Qed.

Lemma min_Fin (a b : Qc) : Num.min (Fin a) (Fin b) = Fin (Qc_min a b).
Proof. unfold Num.min, Num.ltb, Qc_min. destruct (b ?= a); reflexivity. Qed.

Lemma fold_min_Fin (l : list Qc) (a : Qc) :
  fold_left Num.min (map Fin l) (Fin a) = Fin (fold_left Qc_min l a).
Proof.
  revert a. induction l as [| q l IH]; intros a; [reflexivity |].
  cbn [fold_left map]. rewrite min_Fin. apply IH.
Qed.

Lemma fold_Qc_min_spec (l : list Qc) (a : Qc) :
  (fold_left Qc_min l a = a \/ fold_left Qc_min l a ∈ l)
  /\ fold_left Qc_min l a <= a
  /\ forall x, x ∈ l -> fold_left Qc_min l a <= x.
Proof.
  revert a. induction l as [| q l IH]; intros a; simpl.
  - split; [left; reflexivity |]. split; [apply Qcle_refl |].
    intros x Hx. inversion Hx.
  - destruct (IH (Qc_min a q)) as (Hin & Hle & Hall).
    assert (Ha : Qc_min a q <= a /\ Qc_min a q <= q).
    { destruct (Qc_min_spec a q) as [[H ->] | [H ->]].
      - split; [apply Qclt_le_weak; exact H | apply Qcle_refl].
      - split; [apply Qcle_refl | exact H]. }
    split; [| split].
    + destruct Hin as [-> | Hin].
      * destruct (Qc_min_spec a q) as [[_ ->] | [_ ->]];
          [right; apply list_elem_of_here | left; reflexivity].
      * right. apply list_elem_of_further. exact Hin.
    + eapply Qcle_trans; [exact Hle | apply Ha].
    + intros x Hx. apply elem_of_cons in Hx as [-> | Hx].
      * eapply Qcle_trans; [exact Hle | apply Ha].
      * apply Hall. exact Hx.
Qed.

(** The minimum of a non-empty list of finite numbers is one of them and is
    below all of them. *)
Lemma min_list_Fin (l : list Qc) :
  l <> [] ->
  exists m, Num.min_list (map Fin l) = Fin m /\ m ∈ l /\ forall x, x ∈ l -> m <= x.
Proof.
  destruct l as [| q l]; [congruence | intros _].
  exists (fold_left Qc_min l q). unfold Num.min_list. cbn [fold_left map].
  change (Num.min PInf (Fin q)) with (Fin q). rewrite fold_min_Fin.
  destruct (fold_Qc_min_spec l q) as (Hin & Hle & Hall).
  split; [reflexivity |]. split.
  - destruct Hin as [-> | Hin]; [apply list_elem_of_here | apply list_elem_of_further, Hin].
  - intros x Hx. apply elem_of_cons in Hx as [-> | Hx]; [exact Hle | apply Hall, Hx].
Qed.

Lemma max_drawdown_least (ts : list trade) :
  ts <> [] ->
  exists m,
    maxDrawdown (result ts) = Fin m
    /\ m <= 0
    /\ (exists i, (i < length ts)%nat /\ m = Claimed.drawdown_percent_at ts i)
    /\ forall i, (i < length ts)%nat -> m <= Claimed.drawdown_percent_at ts i.
Proof.
  intros Hne. unfold result, mockResults. cbn [maxDrawdown].
  rewrite drawdown_values.
  rewrite <- (map_map (Claimed.drawdown_percent_at ts) Fin).
  destruct (min_list_Fin (map (Claimed.drawdown_percent_at ts) (seq 0 (length ts))))
    as (m & Hm & Hin & Hall).
  { destruct ts; [congruence | discriminate]. }
  assert (Hpt : exists i, (i < length ts)%nat /\ m = Claimed.drawdown_percent_at ts i).
  { apply list_elem_of_In, in_map_iff in Hin as (i & <- & Hi).
    apply in_seq in Hi. exists i. split; [lia | reflexivity]. }
  exists m. split; [exact Hm |]. split; [| split; [exact Hpt |]].
  - destruct Hpt as (i & Hi & ->). apply drawdown_percent_nonpos. exact Hi.
  - intros i Hi. apply Hall. apply list_elem_of_In, in_map_iff.
    exists i. split; [reflexivity |]. apply in_seq. lia.
Qed.


(** X1: on a ledger with at least one trade, [maxDrawdown] is the least
    value of the drawdown curve: it is the value of some point, it is below
    the value of every point, and it is never positive. *)
Theorem X1_max_drawdown_is_the_least_point (ts : list trade) :
  ts <> [] ->
  exists m,
    maxDrawdown (result ts) = Fin m
    /\ m <= 0
    /\ (exists i, (i < length ts)%nat /\ m = Claimed.drawdown_percent_at ts i)
    /\ forall i, (i < length ts)%nat -> m <= Claimed.drawdown_percent_at ts i.
Proof. exact (max_drawdown_least ts). Qed.

Lemma Qc_lt_irrefl (a : Qc) : ~ a < a.
Proof. intros H. exact (Qclt_not_eq _ _ H eq_refl). Qed.

Lemma Qc_div_pos (a b : Qc) : 0 < a -> 0 < b -> 0 < a / b.
Proof.
  unfold Qclt, Qcdiv, Qcmult, Qcinv. simpl. rewrite !Qred_correct.
  intros Ha Hb. assert (0 < / b)%Q by (apply Qinv_lt_0_compat; exact Hb).
  set (c := (/ b)%Q) in *. nra.
Qed.

Lemma Qc_div_neg (a b : Qc) : a < 0 -> 0 < b -> a / b < 0.
Proof.
  unfold Qclt, Qcdiv, Qcmult, Qcinv. simpl. rewrite !Qred_correct.
  intros Ha Hb. assert (0 < / b)%Q by (apply Qinv_lt_0_compat; exact Hb).
  set (c := (/ b)%Q) in *. nra.
Qed.

Lemma Qc_of_nat_pos (n : nat) : (0 < n)%nat -> 0 < Qc_of_Z (Z.of_nat n).
Proof. intros H. unfold Qclt. simpl. unfold Qlt. simpl. lia. Qed.

Lemma nonempty_length_pos {A} (l : list A) : l <> [] -> (0 < length l)%nat.
Proof. destruct l; [congruence | simpl; lia]. Qed.

Lemma or_truthy_pos (q : Qc) (d : number) : 0 < q -> Num.or (Fin q) d = Fin q.
Proof. intros H. unfold Num.or, Num.truthy. rewrite (Qc_sign_pos q H). reflexivity. Qed.

Lemma or_truthy_neg (q : Qc) (d : number) : q < 0 -> Num.or (Fin q) d = Fin q.
Proof. intros H. unfold Num.or, Num.truthy. rewrite (Qc_sign_neg q H). reflexivity. Qed.

Lemma average_win_cases (ts : list trade) :
  (Claimed.winning ts <> [] ->
   averageWin (result ts) = Fin (mean (map pnl (Claimed.winning ts)))
   /\ 0 < mean (map pnl (Claimed.winning ts)))
  /\ (Claimed.winning ts = [] -> averageWin (result ts) = Num.of_Z 0).
Proof.
  unfold result, mockResults. cbn [averageWin]. rewrite wins_filter, sum_pnl_Fin.
  split.
  - intros Hne.
    pose proof (Qc_of_nat_pos _ (nonempty_length_pos _ Hne)) as Hn.
    pose proof (sum_winning_pos ts Hne) as Hs.
    unfold Num.of_nat, Num.of_Z at 1. rewrite div_Fin_pos by exact Hn.
    unfold mean. rewrite length_map.
    rewrite or_truthy_pos by (apply Qc_div_pos; assumption).
    split; [reflexivity | apply Qc_div_pos; assumption].
  - intros ->. reflexivity.
Qed.

Lemma average_loss_cases (ts : list trade) :
  (Claimed.losing ts <> [] ->
   averageLoss (result ts) = Fin (mean (map pnl (Claimed.losing ts)))
   /\ mean (map pnl (Claimed.losing ts)) < 0)
  /\ (Claimed.losing ts = [] -> averageLoss (result ts) = Num.of_Z 0).
Proof.
  unfold result, mockResults. cbn [averageLoss]. rewrite losses_filter, sum_pnl_Fin.
  split.
  - intros Hne.
    pose proof (Qc_of_nat_pos _ (nonempty_length_pos _ Hne)) as Hn.
    pose proof (sum_losing_neg ts Hne) as Hs.
    unfold Num.of_nat, Num.of_Z at 1. rewrite div_Fin_pos by exact Hn.
    unfold mean. rewrite length_map.
    rewrite or_truthy_neg by (apply Qc_div_neg; assumption).
    split; [reflexivity | apply Qc_div_neg; assumption].
  - intros ->. reflexivity.
Qed.

(** X2: with at least one winning trade, [averageWin] is the arithmetic
    mean of the pnl of the winning trades, a positive number; with none, the
    quotient 0/0 is replaced by 0. *)
Theorem X2_average_win (ts : list trade) :
  (Claimed.winning ts <> [] ->
   averageWin (result ts) = Fin (mean (map pnl (Claimed.winning ts)))
   /\ 0 < mean (map pnl (Claimed.winning ts)))
  /\ (Claimed.winning ts = [] -> averageWin (result ts) = Num.of_Z 0).
Proof. exact (average_win_cases ts). Qed.

(** X3: with at least one losing trade, [averageLoss] is the arithmetic
    mean of the pnl of the losing trades, a negative number; with none, the
    quotient 0/0 is replaced by 0. *)
Theorem X3_average_loss (ts : list trade) :
  (Claimed.losing ts <> [] ->
   averageLoss (result ts) = Fin (mean (map pnl (Claimed.losing ts)))
   /\ mean (map pnl (Claimed.losing ts)) < 0)
  /\ (Claimed.losing ts = [] -> averageLoss (result ts) = Num.of_Z 0).
Proof. exact (average_loss_cases ts). Qed.

Lemma pnl_trichotomy (t : trade) :
  (0 < pnl t /\ ~ pnl t < 0 /\ pnl t <> 0)
  \/ (pnl t < 0 /\ ~ 0 < pnl t /\ pnl t <> 0)
  \/ (pnl t = 0 /\ ~ 0 < pnl t /\ ~ pnl t < 0).
Proof.
  destruct (pnl t ?= 0) eqn:E.
  - apply Qceq_alt in E. right. right. rewrite E.
    repeat split; apply Qc_lt_irrefl.
  - apply Qclt_alt in E. right. left. split; [exact E |]. split.
    + intros H. exact (Qc_lt_irrefl _ (Qclt_trans _ _ _ H E)).
    + intros H. rewrite H in E. exact (Qc_lt_irrefl _ E).
  - apply Qcgt_alt in E. left. split; [exact E |]. split.
    + intros H. exact (Qc_lt_irrefl _ (Qclt_trans _ _ _ H E)).
    + intros H. rewrite H in E. exact (Qc_lt_irrefl _ E).
Qed.

Lemma sum_splits (ts : list trade) :
  sum_Qc (map pnl ts)
  = sum_Qc (map pnl (Claimed.winning ts)) + sum_Qc (map pnl (Claimed.losing ts)).
Proof.
  unfold Claimed.winning, Claimed.losing.
  induction ts as [| t ts IH]; [unfold sum_Qc; simpl; ring |].
  rewrite !filter_cons.
  destruct (pnl_trichotomy t) as [(Hw & Hl & Hz) | [(Hl & Hw & Hz) | (Hz & Hw & Hl)]];
    repeat case_decide; try contradiction;
    unfold sum_Qc in *; simpl; rewrite IH; try rewrite Hz; ring.
Qed.

Lemma total_return_value (ts : list trade) :
  totalReturn (result ts) = Fin (sum_Qc (map pnl ts)).
Proof.
  unfold result, mockResults. cbn [totalReturn].
  rewrite (proj1 (forEach_vars ts)). unfold equity_of, Num.sub, Num.of_Z. simpl.
  f_equal. change (Qc_of_Z 100000) with Claimed.initial_capital. ring.
Qed.

(** X4: the total return is the pnl of the winning trades plus the pnl of
    the losing trades, and it is rebuilt from the reported averages and
    counts: averageWin * winningTrades + averageLoss * losingTrades. *)
Theorem X4_total_return_from_wins_and_losses (ts : list trade) :
  totalReturn (result ts)
  = Fin (sum_Qc (map pnl (Claimed.winning ts)) + sum_Qc (map pnl (Claimed.losing ts)))
  /\ totalReturn (result ts)
     = Num.add (Num.mul (averageWin (result ts)) (winningTrades (result ts)))
               (Num.mul (averageLoss (result ts)) (losingTrades (result ts))).
Proof.
  rewrite total_return_value, sum_splits. split; [reflexivity |].
  assert (Hw : Num.mul (averageWin (result ts)) (winningTrades (result ts))
               = Fin (sum_Qc (map pnl (Claimed.winning ts)))).
  { destruct (average_win_cases ts) as [Hne He].
    assert (Hc : winningTrades (result ts)
                 = Fin (Qc_of_Z (Z.of_nat (length (Claimed.winning ts))))).
    { unfold result, mockResults. cbn [winningTrades]. rewrite wins_filter. reflexivity. }
    rewrite Hc. destruct (decide (Claimed.winning ts = [])) as [E | NE].
    - rewrite (He E), E. unfold Num.of_Z. simpl. f_equal; unfold sum_Qc; simpl; ring.
    - rewrite (proj1 (Hne NE)). unfold mean. rewrite length_map. simpl. f_equal.
      field. intros E0. pose proof (Qc_of_nat_pos _ (nonempty_length_pos _ NE)) as Hp.
      rewrite E0 in Hp. exact (Qc_lt_irrefl _ Hp). }
  assert (Hl : Num.mul (averageLoss (result ts)) (losingTrades (result ts))
               = Fin (sum_Qc (map pnl (Claimed.losing ts)))).
  { destruct (average_loss_cases ts) as [Hne He].
    assert (Hc : losingTrades (result ts)
                 = Fin (Qc_of_Z (Z.of_nat (length (Claimed.losing ts))))).
    { unfold result, mockResults. cbn [losingTrades]. rewrite losses_filter. reflexivity. }
    rewrite Hc. destruct (decide (Claimed.losing ts = [])) as [E | NE].
    - rewrite (He E), E. unfold Num.of_Z. simpl. f_equal; unfold sum_Qc; simpl; ring.
    - rewrite (proj1 (Hne NE)). unfold mean. rewrite length_map. simpl. f_equal.
      field. intros E0. pose proof (Qc_of_nat_pos _ (nonempty_length_pos _ NE)) as Hp.
      rewrite E0 in Hp. exact (Qc_lt_irrefl _ Hp). }
  rewrite Hw, Hl. reflexivity.
Qed.

(** X5: the final capital is the equity of the last point of the equity
    curve, and the initial capital of 100000 when the ledger is empty. *)
Theorem X5_final_capital_is_the_last_point (ts : list trade) :
  finalCapital (result ts)
  = default (Num.of_Z 100000) (ep_equity <$> last (equityData (result ts))).
Proof.
  unfold result, mockResults. cbn [finalCapital equityData].
  destruct ts as [| t ts _] using rev_ind; [reflexivity |].
  rewrite forEach_snoc. unfold forEach_body. cbn [Vars.equity Vars.equityData].
  rewrite last_snoc. reflexivity.
Qed.

Lemma foldr_Qc_max_elem (c x : Qc) (l : list Qc) :
  x ∈ l -> x <= foldr Qc_max c l.
Proof.
  induction l as [| a l IH]; intros Hx; [inversion Hx |].
  apply elem_of_cons in Hx as [-> | Hx]; simpl.
  - apply Qc_max_ub_l.
  - eapply Qcle_trans; [apply IH, Hx | apply Qc_max_ub_r].
Qed.

Lemma foldr_Qc_max_lub (c z : Qc) (l : list Qc) :
  c <= z -> (forall x, x ∈ l -> x <= z) -> foldr Qc_max c l <= z.
Proof.
  intros Hc. induction l as [| a l IH]; intros Hall; simpl; [exact Hc |].
  apply Qc_max_lub.
  - apply Hall, list_elem_of_here.
  - apply IH. intros x Hx. apply Hall, list_elem_of_further, Hx.
Qed.

Lemma peak_is_equity_iff (ts : list trade) (i : nat) :
  Claimed.equity_at ts i = Claimed.peak_at ts i
  <-> Claimed.initial_capital <= Claimed.equity_at ts i
      /\ forall j, (j <= i)%nat -> Claimed.equity_at ts j <= Claimed.equity_at ts i.
Proof.
  unfold Claimed.peak_at. split.
  - intros ->. split; [apply foldr_Qc_max_base |].
    intros j Hj. apply foldr_Qc_max_elem, list_elem_of_In, in_map_iff.
    exists j. split; [reflexivity | apply in_seq; lia].
  - intros [Hc Hall]. apply Qcle_antisym.
    + apply foldr_Qc_max_elem, list_elem_of_In, in_map_iff.
      exists i. split; [reflexivity | apply in_seq; lia].
    + apply foldr_Qc_max_lub; [exact Hc |].
      intros x Hx. apply list_elem_of_In, in_map_iff in Hx as (j & <- & Hj).
      apply in_seq in Hj. apply Hall. lia.
Qed.

Lemma drawdown_zero_iff (e p : Qc) :
  0 < p -> ((e - p) / p * Qc_of_Z 100 = 0 <-> e = p).
Proof.
  intros Hp.
  assert (Hp0 : p <> 0) by (intros ->; exact (Qc_lt_irrefl _ Hp)).
  assert (Hc : Qc_of_Z 100 <> 0) by discriminate.
  set (c := Qc_of_Z 100) in *. split.
  - intros H.
    assert (He : e - p = (e - p) / p * c * (p / c)) by (field; split; assumption).
    rewrite H in He. rewrite Qcmult_0_l in He.
    rewrite <- (Qcplus_0_l p), <- He. ring.
  - intros ->. unfold Qcminus. rewrite Qcplus_opp_r. unfold Qcdiv.
    rewrite !Qcmult_0_l. reflexivity.
Qed.

(** X6: the drawdown at a point of the curve is 0 exactly when the equity
    there is a running high: at least the initial capital and at least the
    equity of every earlier point. *)
Theorem X6_zero_drawdown_at_running_highs (ts : list trade) (i : nat) (t : trade) :
  ts !! i = Some t ->
  drawdownData (result ts) !! i = Some {| dp_date := date t; dp_drawdown := Fin 0 |}
  <-> Claimed.initial_capital <= Claimed.equity_at ts i
      /\ forall j, (j <= i)%nat -> Claimed.equity_at ts j <= Claimed.equity_at ts i.
Proof.
  intros Hi. pose proof (lookup_lt_Some _ _ _ Hi) as Hlt.
  pose proof (proj2 (forEach_points ts i t Hi)) as Hd.
  rewrite (peak_of_take ts i Hlt), equity_of_take in Hd.
  unfold result, mockResults. cbn [drawdownData]. rewrite Hd.
  rewrite <- peak_is_equity_iff.
  assert (Hpos : 0 < Claimed.peak_at ts i).
  { rewrite <- (peak_of_take ts i Hlt). apply peak_of_pos. }
  rewrite <- (drawdown_zero_iff _ _ Hpos). split.
  - intros H. congruence.
  - intros ->. reflexivity.
Qed.

Lemma Qc_div_nonneg (a b : Qc) : 0 <= a -> 0 < b -> 0 <= a / b.
Proof.
  unfold Qcle, Qclt, Qcdiv, Qcmult, Qcinv. simpl. rewrite !Qred_correct.
  intros Ha Hb. assert (0 < / b)%Q by (apply Qinv_lt_0_compat; exact Hb).
  set (c := (/ b)%Q) in *. nra.
Qed.

Lemma profit_factor_cases (ts : list trade) :
  let W := sum_Qc (map pnl (Claimed.winning ts)) in
  let L := sum_Qc (map pnl (Claimed.losing ts)) in
  (Claimed.losing ts <> [] -> profitFactor (result ts) = Fin (W / - L))
  /\ (Claimed.losing ts = [] -> Claimed.winning ts <> [] ->
      profitFactor (result ts) = PInf)
  /\ (Claimed.losing ts = [] -> Claimed.winning ts = [] ->
      profitFactor (result ts) = Num.of_Z 0).
Proof.
  intros W L. unfold result, mockResults. cbn [profitFactor].
  rewrite wins_filter, losses_filter, !sum_pnl_Fin. fold W L.
  split; [| split].
  - intros Hne. apply abs_div_or; [apply sum_winning_nonneg | apply sum_losing_neg, Hne].
  - intros El Hw. pose proof (sum_winning_pos ts Hw) as Hpos. fold W in Hpos.
    subst L. rewrite El. unfold sum_Qc at 1. simpl.
    unfold Num.div. change (Num.Qc_sign 0) with Eq. cbv iota.
    rewrite (Qc_sign_pos _ Hpos). reflexivity.
  - intros El Ew. subst W L. rewrite El, Ew. reflexivity.
Qed.

(** X7: the profit factor is never [NaN] and never negative: it is a finite
    number that is at least 0, or it is infinite; and it is 0 exactly when
    the ledger has no winning trade. *)
Theorem X7_profit_factor_range (ts : list trade) :
  ((exists q, 0 <= q /\ profitFactor (result ts) = Fin q)
   \/ profitFactor (result ts) = PInf)
  /\ (profitFactor (result ts) = Num.of_Z 0 <-> Claimed.winning ts = []).
Proof.
  destruct (profit_factor_cases ts) as (Hl & Hinf & Hz). cbv zeta in Hl.
  pose proof (sum_winning_nonneg ts) as Hw.
  destruct (decide (Claimed.losing ts = [])) as [El | Nl];
    destruct (decide (Claimed.winning ts = [])) as [Ew | Nw].
  - rewrite (Hz El Ew). split; [| split; auto].
    left. exists (Qc_of_Z 0). split; [discriminate | reflexivity].
  - rewrite (Hinf El Nw). split; [right; reflexivity |].
    split; [discriminate | contradiction].
  - rewrite (Hl Nl). pose proof (Qc_opp_pos _ (sum_losing_neg ts Nl)) as Hneg.
    split.
    + left. eexists. split; [| reflexivity]. apply Qc_div_nonneg; assumption.
    + split; [intros _; exact Ew |]. intros _. rewrite Ew. unfold Num.of_Z.
      f_equal. unfold sum_Qc at 1. simpl. rewrite Qc_of_Z_0. unfold Qcdiv.
      apply Qcmult_0_l.
  - rewrite (Hl Nl). pose proof (Qc_opp_pos _ (sum_losing_neg ts Nl)) as Hneg.
    pose proof (Qc_div_pos _ _ (sum_winning_pos ts Nw) Hneg) as Hpos.
    split.
    + left. eexists. split; [| reflexivity]. apply Qclt_le_weak. exact Hpos.
    + split; [| contradiction]. intros H.
      assert (H' : sum_Qc (map pnl (Claimed.winning ts))
                   / - sum_Qc (map pnl (Claimed.losing ts)) = Qc_of_Z 0)
        by (unfold Num.of_Z in H; congruence).
      rewrite H', Qc_of_Z_0 in Hpos. destruct (Qc_lt_irrefl _ Hpos).
Qed.

Lemma win_rate_value (ts : list trade) :
  ts <> [] ->
  winRate (result ts)
  = Fin (Qc_of_Z (Z.of_nat (length (Claimed.winning ts)))
         / Qc_of_Z (Z.of_nat (length ts)) * Qc_of_Z 100).
Proof.
  intros Hne. unfold result, mockResults. cbn [winRate]. rewrite wins_filter.
  unfold Num.of_nat, Num.of_Z.
  rewrite div_Fin_pos by (apply Qc_of_nat_pos, nonempty_length_pos, Hne). reflexivity.
Qed.

(** X8: the empty ledger is the one ledger on which the win rate is [NaN]
    (0/0 with no guard) and on which the maximum drawdown is [Infinity]
    ([Math.min] of no argument). *)
Theorem X8_empty_ledger_metrics (ts : list trade) :
  (winRate (result ts) = NaN <-> ts = [])
  /\ (maxDrawdown (result ts) = PInf <-> ts = []).
Proof.
  destruct (decide (ts = [])) as [-> | Hne].
  - split; split; reflexivity.
  - split; (split; [| contradiction]).
    + rewrite (win_rate_value ts Hne). discriminate.
    + destruct (max_drawdown_least ts Hne) as (m & Hm & _).
      rewrite Hm. discriminate.
Qed.

(** X9: every trade is counted once: the winning trades, the losing trades
    and the trades with pnl 0 add up to [totalTrades], so winning and losing
    trades together never exceed it. *)
Theorem X9_trade_counts (ts : list trade) :
  let w := length (Claimed.winning ts) in
  let l := length (Claimed.losing ts) in
  let z := length (filter (fun t => pnl t = 0) ts) in
  winningTrades (result ts) = Num.of_nat w
  /\ losingTrades (result ts) = Num.of_nat l
  /\ totalTrades (result ts) = Num.of_nat (w + l + z)
  /\ (w + l <= length ts)%nat.
Proof.
  intros w l z.
  assert (Hsum : (w + l + z = length ts)%nat).
  { subst w l z. unfold Claimed.winning, Claimed.losing.
    induction ts as [| t ts IH]; [reflexivity |].
    rewrite !filter_cons.
    destruct (pnl_trichotomy t) as [(Hw & Hl & Hz) | [(Hl & Hw & Hz) | (Hz & Hw & Hl)]];
      repeat case_decide; try contradiction; simpl; lia. }
  unfold result, mockResults. cbn [winningTrades losingTrades totalTrades].
  rewrite wins_filter, losses_filter, Hsum.
  repeat split. lia.
Qed.

(** X10: both curves follow the ledger: the points of the equity curve and
    of the drawdown curve carry the dates of the trades, in the order of the
    ledger, one point per trade. *)
Theorem X10_curves_follow_the_ledger (ts : list trade) :
  map ep_date (equityData (result ts)) = map date ts
  /\ map dp_date (drawdownData (result ts)) = map date ts.
Proof.
  unfold result, mockResults. cbn [equityData drawdownData].
  induction ts as [| t ts [IHe IHd]] using rev_ind; [split; reflexivity |].
  rewrite forEach_snoc. unfold forEach_body.
  cbn [Vars.equityData Vars.drawdownData].
  rewrite !map_app, IHe, IHd. split; reflexivity.
Qed.

End BacktestExtras.

Lemma X1_witness :
  Backtest.trades <> []
  /\ exists m, Backtest.maxDrawdown Backtest.runBacktest = Fin m /\ (m <= 0)%Qc.
Proof.
  assert (Hne : Backtest.trades <> []) by discriminate.
  split; [exact Hne |].
  destruct (X1_max_drawdown_is_the_least_point "AAPL" "sma_crossover" "1y"
              Backtest.trades Hne) as (m & Hm & Hle & _).
  exists m. split; [exact Hm | exact Hle].
Defined.

Lemma X6_witness :
  Backtest.trades !! 0%nat
  = Some {| Backtest.date := "2024-01-15"; Backtest.act := Backtest.BUY;
            Backtest.price := Num.cents 15000; Backtest.quantity := Qc_of_Z 100;
            Backtest.pnl := Qc_of_Z 0 |}
  /\ Backtest.drawdownData Backtest.runBacktest !! 0%nat
     = Some {| Backtest.dp_date := "2024-01-15"; Backtest.dp_drawdown := Fin 0%Qc |}.
Proof.
  split; [reflexivity |].
  apply (X6_zero_drawdown_at_running_highs "AAPL" "sma_crossover" "1y"
           Backtest.trades 0 _ eq_refl).
  split; [discriminate |].
  intros j Hj. assert (j = 0%nat) as -> by lia. apply Qcle_refl.
Defined.

(** ** Further properties of the Portfolio view *)

Section PortfolioExtras.
Import Portfolio.
Local Open Scope Qc_scope.

Lemma fold_add_map {A} (f : A -> number) (l : list A) (acc : number) :
  fold_left (fun total a => Num.add total (f a)) l acc
  = fold_left Num.add (map f l) acc.
Proof. revert acc. induction l as [| a l IH]; intros acc; [reflexivity | apply IH]. Qed.

(** X11: the total P&L the view shows is the sum of the P&L it shows in the
    rows of the positions. *)
Theorem X11_total_pnl_is_the_sum_of_the_rows (s : state) :
  shown_totalPnL (render s) = Num.sum (map row_pnl (shown_positions (render s))).
Proof.
  cbn [shown_totalPnL shown_positions render].
  unfold totalPnL, calculateTotalPnL, Num.sum.
  rewrite map_map. cbn [row_pnl]. apply fold_add_map.
Qed.

Lemma row_lookup (s : state) (i : nat) (p : position) :
  positions s !! i = Some p ->
  shown_positions (render s) !! i
  = Some {| row_symbol := symbol p;
            row_pnl := calculatePnL (Fin (shares p)) (Fin (avgPrice p))
                         (Fin (currentPrice p));
            row_pnlPercentage :=
              Num.mul (Num.div (Num.sub (Fin (currentPrice p)) (Fin (avgPrice p)))
                               (Fin (avgPrice p)))
                      (Num.of_Z 100);
            row_currentValue := Num.mul (Fin (shares p)) (Fin (currentPrice p)) |}.
Proof.
  intros Hi. cbn [shown_positions render].
  match goal with |- map ?f ?l !! _ = _ => change (map f l) with (f <$> l) end.
  rewrite list_lookup_fmap, Hi. reflexivity.
Qed.

(** X12: for a position with a positive number of shares and a positive
    average price, the row shows a finite P&L [a] and a finite percentage
    [b] with [b * cost = a * 100], where the cost is shares times average
    price; the value shown is the cost plus [a]; and [a] and [b] have the
    same sign, so the colour of the row and the sign printed before the
    percentage agree. *)
Theorem X12_row_percentage_is_relative_to_cost (s : state) (i : nat) (p : position) :
  positions s !! i = Some p ->
  0 < shares p ->
  0 < avgPrice p ->
  exists r a b,
    shown_positions (render s) !! i = Some r
    /\ row_pnl r = Fin a
    /\ row_pnlPercentage r = Fin b
    /\ b * (shares p * avgPrice p) = a * Qc_of_Z 100
    /\ row_currentValue r = Fin (shares p * avgPrice p + a)
    /\ (0 <= a <-> 0 <= b).
Proof.
  intros Hi Hs Hv.
  assert (Hv0 : avgPrice p <> 0) by (intros E; rewrite E in Hv; exact (Qc_lt_irrefl _ Hv)).
  eexists _, ((currentPrice p - avgPrice p) * shares p),
    ((currentPrice p - avgPrice p) / avgPrice p * Qc_of_Z 100).
  split; [apply (row_lookup s i p Hi) |]. cbn [row_pnl row_pnlPercentage row_currentValue].
  split; [reflexivity |]. split.
  { unfold Num.sub. cbn [Num.neg Num.add]. rewrite div_Fin_pos by exact Hv. reflexivity. }
  split; [field; exact Hv0 |]. split; [cbn [Num.mul]; f_equal; ring |].
  revert Hs Hv. generalize (currentPrice p) (avgPrice p) (shares p). clear.
  intros c v sh.
  unfold Qcle, Qclt, Qcminus, Qcdiv, Qcmult, Qcplus, Qcopp, Qcinv. simpl.
  rewrite !Qred_correct. intros Hs Hv.
  assert (Hi : (0 < / v)%Q) by (apply Qinv_lt_0_compat; exact Hv).
  set (iv := (/ v)%Q) in *. change (inject_Z 100) with 100%Q.
  destruct (Qlt_le_dec (c + - v) 0) as [Hd | Hd]; split; intros H; nra.
Qed.

(** X13: a position with average price 0 has no finite percentage: the row
    shows [Infinity] when the current price is positive, [-Infinity] when it
    is negative, and [NaN] when it is 0. *)
Theorem X13_row_percentage_at_zero_average_price (s : state) (i : nat) (p : position) :
  positions s !! i = Some p ->
  avgPrice p = 0 ->
  exists r,
    shown_positions (render s) !! i = Some r
    /\ row_pnlPercentage r = Num.inf_of_sign (Num.Qc_sign (currentPrice p)).
Proof.
  intros Hi Hv. eexists. split; [apply (row_lookup s i p Hi) |].
  cbn [row_pnlPercentage]. rewrite Hv.
  unfold Num.sub. cbn [Num.neg Num.add].
  assert (Hc : currentPrice p + - 0 = currentPrice p) by ring.
  rewrite Hc. unfold Num.div. change (Num.Qc_sign 0) with Eq. cbv iota.
  destruct (Num.Qc_sign (currentPrice p)); reflexivity.
Qed.

End PortfolioExtras.

Lemma X12_witness :
  exists r a b,
    Portfolio.shown_positions (Portfolio.render Portfolio.portfolio) !! 0%nat = Some r
    /\ Portfolio.row_pnl r = Fin a
    /\ Portfolio.row_pnlPercentage r = Fin b
    /\ (0 <= a <-> 0 <= b)%Qc.
Proof.
  destruct (X12_row_percentage_is_relative_to_cost Portfolio.portfolio 0 _ eq_refl)
    as (r & a & b & Hr & Ha & Hb & _ & _ & Hs); [reflexivity | reflexivity |].
  exists r, a, b. repeat split; try assumption; apply Hs.
Defined.

Lemma X13_witness :
  let s := {| Portfolio.totalValue := Qc_of_Z 100000; Portfolio.cash := Qc_of_Z 50000;
              Portfolio.positions :=
                [{| Portfolio.symbol := "AAPL"; Portfolio.shares := Qc_of_Z 100;
                    Portfolio.avgPrice := 0%Qc;
                    Portfolio.currentPrice := Num.cents 24529 |}] |} in
  exists r,
    Portfolio.shown_positions (Portfolio.render s) !! 0%nat = Some r
    /\ Portfolio.row_pnlPercentage r = PInf.
Proof.
  intros s.
  destruct (X13_row_percentage_at_zero_average_price s 0 _ eq_refl eq_refl)
    as (r & Hr & Hp).
  exists r. split; [exact Hr | exact Hp].
Defined.

(** ** The Trading component *)

Section TradingExtras.
Import Trading.
Local Open Scope Qc_scope.

Lemma realized_0 ps qs : realized ps qs 0 = 0.
Proof. unfold realized, sum_Qc. simpl. ring. Qed.

Lemma realized_S ps qs i :
  realized ps qs (S i)
  = realized ps qs i
    + (if Nat.odd (S i)
       then (nth (S i) ps 0 - nth i ps 0) * nth (S i) qs 0
       else 0).
Proof.
  unfold realized. rewrite (seq_S (S i)), map_app.
  cbn [map Nat.add]. rewrite sum_Qc_snoc.
  replace (S i - 1)%nat with i by lia. reflexivity.
Qed.

Lemma odd_mod (n : nat) : (n mod 2 =? 1)%nat = Nat.odd n.
Proof.
  pose proof (Nat.div_mod_eq n 2) as Hn.
  pose proof (Nat.mod_upper_bound n 2) as Hb.
  destruct (Nat.odd n) eqn:E.
  - apply Nat.eqb_eq. apply Nat.odd_spec in E. destruct E as [k Hk]. lia.
  - apply Nat.eqb_neq. intros H.
    assert (Ho : Nat.odd n = true) by (apply Nat.odd_spec; exists (n / 2)%nat; lia).
    congruence.
Qed.

Lemma lookup_Fin {A} (f : A -> number) (l : list A) (qs : list Qc) (j : nat) (a : A) :
  map f l = map Fin qs -> l !! j = Some a -> f a = Fin (nth j qs 0).
Proof.
  intros Hm Ha.
  assert (H : (f <$> l) !! j = (Fin <$> qs) !! j) by (change (f <$> l) with (map f l); rewrite Hm; reflexivity).
  rewrite !list_lookup_fmap, Ha in H. simpl in H.
  rewrite nth_lookup. destruct (qs !! j); simpl in *; congruence.
Qed.

Variables (ts : list trade) (ps qs : list Qc).
Hypothesis Hprice : map price ts = map Fin ps.
Hypothesis Hquantity : map quantity ts = map Fin qs.

Lemma reduce_from_run (pre rest : list trade) (acc : list pnl_point) :
  ts = pre ++ rest ->
  map time acc = map timestamp pre ->
  map pnl acc = map (fun i => Fin (realized ps qs i)) (seq 0 (length pre)) ->
  exists curve,
    reduce_from ts rest (length pre) acc = Some curve
    /\ map time curve = map timestamp ts
    /\ map pnl curve = map (fun i => Fin (realized ps qs i)) (seq 0 (length ts)).
Proof.
  revert pre acc. induction rest as [| t rest IH]; intros pre acc Hts Htime Hpnl.
  - rewrite app_nil_r in Hts. subst pre. exists acc. repeat split; assumption.
  - assert (Ht : ts !! length pre = Some t).
    { rewrite Hts. apply list_lookup_middle. reflexivity. }
    assert (Hlast : last acc
                    = match length pre with
                      | O => None
                      | S k => Some {| time := default "" (time <$> last acc);
                                       pnl := Fin (realized ps qs k) |}
                      end).
    { destruct pre as [| p0 pre'] using rev_ind.
      - destruct acc; [reflexivity | discriminate].
      - clear IHpre'. rewrite length_app in *. simpl length in *.
        replace (length pre' + 1)%nat with (S (length pre')) in * by lia.
        rewrite seq_S, map_app in Hpnl. simpl in Hpnl.
        destruct acc as [| a0 acc'] using rev_ind.
        + symmetry in Hpnl. apply app_eq_nil in Hpnl as [_ Hpnl]. discriminate.
        + clear IHacc'. rewrite map_app in Hpnl. simpl in Hpnl.
          apply app_inj_tail in Hpnl as [_ Hp].
          rewrite last_snoc. simpl. destruct a0 as [tm pn]. simpl in *. subst pn.
          reflexivity. }
    set (v := if Nat.odd (length pre)
              then (nth (length pre) ps 0 - nth (length pre - 1) ps 0)
                   * nth (length pre) qs 0
              else 0).
    assert (Hbody : reduce_body ts acc t (length pre)
                    = Some (acc ++ [{| time := timestamp t;
                                       pnl := Fin (realized ps qs (length pre)) |}])).
    { unfold reduce_body. rewrite odd_mod.
      destruct (Nat.odd (length pre)) eqn:Hodd.
      - destruct (length pre) as [| k] eqn:Hk; [discriminate |].
        replace (S k - 1)%nat with k in * by lia.
        assert (Hk' : (k < length ts)%nat).
        { apply lookup_lt_Some in Ht. lia. }
        destruct (lookup_lt_is_Some_2 ts k Hk') as [prev Hprev].
        rewrite Hprev. simpl.
        rewrite (lookup_Fin price ts ps _ _ Hprice Ht).
        rewrite (lookup_Fin price ts ps _ _ Hprice Hprev).
        rewrite (lookup_Fin quantity ts qs _ _ Hquantity Ht).
        rewrite Hlast, realized_S, Hodd. reflexivity.
      - simpl. rewrite Hlast. destruct (length pre) as [| k] eqn:Hk.
        + rewrite realized_0. unfold Num.of_Z. rewrite Qc_of_Z_0. reflexivity.
        + rewrite realized_S, Hodd. unfold Num.of_Z. rewrite Qc_of_Z_0. reflexivity. }
    destruct (IH (pre ++ [t]) (acc ++ [{| time := timestamp t;
                                          pnl := Fin (realized ps qs (length pre)) |}]))
      as (curve & Hrun & Hc).
    + rewrite <- app_assoc. exact Hts.
    + rewrite !map_app, Htime. reflexivity.
    + rewrite length_app. simpl length.
      replace (length pre + 1)%nat with (S (length pre)) by lia.
      rewrite seq_S, !map_app, Hpnl. reflexivity.
    + exists curve. split; [| exact Hc].
      cbn [reduce_from]. rewrite Hbody. simpl.
      rewrite length_app in Hrun. simpl length in Hrun.
      replace (length pre + 1)%nat with (S (length pre)) in Hrun by lia.
      exact Hrun.
Qed.


End TradingExtras.

Section StartTrading.
Import Trading.
Local Open Scope Qc_scope.

(** The prices of the four simulated trades around a finite base price. *)
Lemma mock_prices (b : Qc) (selectedSymbol selectedStrategy : string) :
  map price (mockTrades (mockSignals (Fin b) selectedStrategy) selectedSymbol)
  = map Fin [b - Qc_of_Z 5; b; b + Qc_of_Z 2; b - Qc_of_Z 3]
  /\ map quantity (mockTrades (mockSignals (Fin b) selectedStrategy) selectedSymbol)
     = map Fin [Qc_of_Z 100; Qc_of_Z 100; Qc_of_Z 100; Qc_of_Z 100].
Proof. split; reflexivity. Qed.

Lemma mock_realized (b : Qc) :
  let ps := [b - Qc_of_Z 5; b; b + Qc_of_Z 2; b - Qc_of_Z 3] in
  let qs := [Qc_of_Z 100; Qc_of_Z 100; Qc_of_Z 100; Qc_of_Z 100] in
  map (fun i => Fin (realized ps qs i)) (seq 0 4)
  = [Fin (Qc_of_Z 0); Fin (Qc_of_Z 500); Fin (Qc_of_Z 500); Fin (Qc_of_Z 0)].
Proof.
  intros ps qs.
  assert (H5 : Qc_of_Z 5 * Qc_of_Z 100 = Qc_of_Z 500) by (apply Qc_is_canon; reflexivity).
  assert (H0 : Qc_of_Z 500 - Qc_of_Z 5 * Qc_of_Z 100 = Qc_of_Z 0)
    by (apply Qc_is_canon; reflexivity).
  assert (H23 : Qc_of_Z 3 + Qc_of_Z 2 = Qc_of_Z 5) by (apply Qc_is_canon; reflexivity).
  assert (R0 : realized ps qs 0 = Qc_of_Z 0)
    by (rewrite realized_0; symmetry; apply Qc_of_Z_0).
  assert (R1 : realized ps qs 1 = Qc_of_Z 500).
  { rewrite realized_S, R0. subst ps qs. cbn [Nat.odd Nat.even negb nth]. rewrite <- H5.
    rewrite Qc_of_Z_0. ring. }
  assert (R2 : realized ps qs 2 = Qc_of_Z 500).
  { rewrite realized_S, R1. cbn [Nat.odd Nat.even negb]. ring. }
  assert (R3 : realized ps qs 3 = Qc_of_Z 0).
  { rewrite realized_S, R2. subst ps qs. cbn [Nat.odd Nat.even negb nth].
    rewrite <- H0, <- H23. ring. }
  cbn [seq map]. rewrite R0, R1, R2, R3. reflexivity.
Qed.

(** X15: when the base price [livePrice?.price || 150] and the three prices
    derived from it ([- 5], [+ 2], [- 3]) are exact in double arithmetic,
    [startTrading] switches trading on, numbers its four trades 1 to 4 and
    plots the cumulative P&L 0, 500, 500, 0, whatever that price is. *)
Theorem X15_simulated_pnl_at_exact_prices (quote : option Qc) (b : Qc)
    (selectedSymbol selectedStrategy : string) (st : state) :
  basePrice (Fin <$> quote) = Fin b ->
  forallb dyadic53 [b - Qc_of_Z 5; b; b + Qc_of_Z 2; b - Qc_of_Z 3] = true ->
  exists st',
    startTrading (Fin <$> quote) selectedSymbol selectedStrategy st = Some st'
    /\ isTrading st' = true
    /\ map id (trades st') = [Num.of_Z 1; Num.of_Z 2; Num.of_Z 3; Num.of_Z 4]
    /\ map time (pnlData st')
       = ["2024-01-15T00:00:00.000Z"; "2024-01-20T00:00:00.000Z";
          "2024-02-01T00:00:00.000Z"; "2024-02-10T00:00:00.000Z"]
    /\ map pnl (pnlData st')
       = [Fin (Qc_of_Z 0); Fin (Qc_of_Z 500); Fin (Qc_of_Z 500); Fin (Qc_of_Z 0)].
Proof.
  intros Hb _. unfold startTrading. rewrite Hb.
  destruct (mock_prices b selectedSymbol selectedStrategy) as [Hp Hq].
  destruct (reduce_from_run _ _ _ Hp Hq [] _ [] eq_refl eq_refl eq_refl)
    as (curve & Hrun & Htime & Hpnl).
  cbn [length] in Hrun. unfold cumulativePnl. rewrite Hrun. eexists. split; [reflexivity |].
  cbn [isTrading trades pnlData]. split; [reflexivity |]. split; [reflexivity |].
  split; [exact Htime |].
  rewrite Hpnl. apply (mock_realized b).
Qed.

End StartTrading.


Lemma X15_witness :
  let b := Q2Qc (981 # 4) in
  let st := {| Trading.isTrading := false; Trading.trades := [];
               Trading.signals := []; Trading.pnlData := [] |} in
  Trading.basePrice (Fin <$> Some b) = Fin b
  /\ forallb dyadic53 [(b - Qc_of_Z 5)%Qc; b; (b + Qc_of_Z 2)%Qc; (b - Qc_of_Z 3)%Qc]
     = true
  /\ exists st',
       Trading.startTrading (Fin <$> Some b) "AAPL" "sma_crossover" st = Some st'
       /\ map Trading.pnl (Trading.pnlData st')
          = [Fin (Qc_of_Z 0); Fin (Qc_of_Z 500); Fin (Qc_of_Z 500); Fin (Qc_of_Z 0)].
Proof.
  intros b st.
  assert (Hb : Trading.basePrice (Fin <$> Some b) = Fin b) by reflexivity.
  assert (Hx : forallb dyadic53
                 [(b - Qc_of_Z 5)%Qc; b; (b + Qc_of_Z 2)%Qc; (b - Qc_of_Z 3)%Qc] = true)
    by reflexivity.
  split; [exact Hb |]. split; [exact Hx |].
  destruct (X15_simulated_pnl_at_exact_prices (Some b) b "AAPL" "sma_crossover" st Hb Hx)
    as (st' & Hrun & _ & _ & _ & Hpnl).
  exists st'. split; [exact Hrun | exact Hpnl].
Defined.

(** ** The Chart component: what is plotted *)

Section ChartViewExtras.
Import Store Chart ChartView.
Local Open Scope Qc_scope.

Lemma read_all_run (h : store) (ls : list loc) (os : list (gmap string value)) :
  holds_rows h ls os -> read_all ls h = Some (os, h).
Proof.
  induction 1 as [| l o ls os Hl _ IH]; [reflexivity |].
  cbn [read_all]. unfold mbind, store_bind, bind, read_obj. rewrite Hl, IH. reflexivity.
Qed.

Lemma filter_is_drop {A} (P : A -> Prop) `{forall x, Decision (P x)} (l : list A) (n : nat) :
  (forall i x, l !! i = Some x -> (P x <-> (n <= i)%nat)) ->
  filter P l = drop n l.
Proof.
  revert n. induction l as [| a l IH]; intros n Hall; [destruct n; reflexivity |].
  rewrite filter_cons. pose proof (Hall 0%nat a eq_refl) as H0.
  destruct n as [| n].
  - rewrite decide_True by (apply H0; lia). simpl. f_equal.
    rewrite (IH 0%nat); [reflexivity |].
    intros i x Hi. split; [lia | intros _]. apply (Hall (S i) x Hi). lia.
  - rewrite decide_False by (rewrite H0; lia). simpl. apply IH.
    intros i x Hi. rewrite (Hall (S i) x Hi). lia.
Qed.

Lemma filter_none {A} (P : A -> Prop) `{forall x, Decision (P x)} (l : list A) :
  (forall x, x ∈ l -> ~ P x) -> filter P l = [].
Proof.
  induction l as [| a l IH]; intros Hall; [reflexivity |].
  rewrite filter_cons, decide_False by (apply Hall, list_elem_of_here).
  apply IH. intros x Hx. apply Hall, list_elem_of_further, Hx.
Qed.

Lemma sum_Qc_pos (l : list Qc) : l <> [] -> Forall (fun q => 0 < q) l -> 0 < sum_Qc l.
Proof.
  intros Hne Hall. induction Hall as [| q l Hq Hl IH]; [congruence |].
  unfold sum_Qc in *. simpl. destruct l as [| q' l'].
  - simpl. rewrite Qcplus_0_r. exact Hq.
  - apply Qc_add_pos_nonneg; [exact Hq |]. apply Qclt_le_weak, IH. discriminate.
Qed.

Variable toLocaleDateString : option value -> string.
Variables (h : store) (data : loc) (elems : list loc).
Variable rows : list (gmap string value).
Variable closes : list Qc.
Hypothesis Hdata : h !! data = Some (Arr elems).
Hypothesis Hrows : holds_rows h elems rows.
Hypothesis Hnum :
  Forall2 (fun o q => o !! "Close" = Some (VNum (Fin q))) rows closes.

(** The point the chart builds from bar [i]. *)
Let plotted (i : nat) (o : gmap string value) : point :=
  to_point toLocaleDateString
    (<["sma" := sma_value (map Fin closes) default_period i]> o).

Lemma processed_run :
  exists h',
    processedData toLocaleDateString data h
    = Some (filter (fun d => sma d <> VNull) (imap plotted rows), h')
    /\ forall l c, h !! l = Some c -> h' !! l = Some c.
Proof.
  destruct (computeSMA_run h data elems rows (map Fin closes) default_period
              Hdata Hrows (numeric_operands rows closes Hnum))
    as (out & outs & h' & Hrun & Hpre & _ & Hout & Hlen & Hall).
  exists h'. split; [| intros l c Hl; eapply prefix_lookup_Some; eassumption].
  assert (Hobjs : holds_rows h' outs
                    (imap (fun i o => <["sma" := sma_value (map Fin closes)
                                                   default_period i]> o) rows)).
  { apply Forall2_same_length_lookup_2.
    - rewrite length_imap, Hlen. eapply Forall2_length. exact Hrows.
    - intros i e o' He Ho'. rewrite list_lookup_imap in Ho'.
      destruct (rows !! i) as [o |] eqn:Ho; [| discriminate].
      simpl in Ho'. injection Ho' as <-.
      destruct (Hall i o Ho) as (e' & He' & _ & Hobj).
      rewrite He in He'. injection He' as <-. exact Hobj. }
  unfold processedData. unfold mbind, store_bind, bind at 1. rewrite Hrun.
  unfold bind at 1, read_arr. rewrite Hout.
  unfold bind. rewrite (read_all_run h' _ _ Hobjs).
  unfold mret, store_ret, ret. do 3 f_equal.
  match goal with |- map ?f ?l = _ => change (map f l) with (f <$> l) end.
  rewrite fmap_imap. reflexivity.
Qed.

Lemma plotted_sma (i : nat) (o : gmap string value) :
  (i < length closes)%nat ->
  sma (plotted i o)
  = if (Z.of_nat i <? 19)%Z then VNull
    else if decide (mean (Claimed.trailing closes 20 i) = 0) then VNull
         else VNum (Fin (mean (Claimed.trailing closes 20 i))).
Proof.
  intros Hi. unfold plotted, to_point. cbn [sma].
  rewrite lookup_insert_eq, sma_value_numeric by (unfold default_period; lia || exact Hi).
  change (default_period - 1)%Z with 19%Z.
  change (Z.to_nat default_period) with 20%nat.
  destruct (Z.of_nat i <? 19)%Z; [reflexivity |].
  cbn [or_null]. unfold Num.truthy, Num.Qc_sign.
  destruct (decide (mean (Claimed.trailing closes 20 i) = 0)) as [E | NE].
  - rewrite E. reflexivity.
  - destruct (mean (Claimed.trailing closes 20 i) ?= 0) eqn:C; try reflexivity.
    apply Qceq_alt in C. contradiction.
Qed.

(** X16: on bars whose 20-close sums and means are exact in double
    arithmetic, the chart never plots a null or a zero moving average: every
    plotted point comes from a bar with index at least 19 and carries the
    mean of the 20 closes that end at that bar, a number other than 0; there
    are at most length - 19 points; and the store is as it was. *)
Theorem X16_plotted_points_have_a_moving_average :
  (forall i, (19 <= i < length closes)%nat ->
             exact_mean (Claimed.trailing closes 20 i) = true) ->
  exists pts h',
    processedData toLocaleDateString data h = Some (pts, h')
    /\ (forall l c, h !! l = Some c -> h' !! l = Some c)
    /\ (length pts <= length rows - 19)%nat
    /\ forall p, p ∈ pts ->
         exists i o,
           rows !! i = Some o
           /\ (19 <= i)%nat
           /\ mean (Claimed.trailing closes 20 i) <> 0
           /\ p = {| date := toLocaleDateString (o !! "Datetime");
                     price := o !! "Close";
                     sma := VNum (Fin (mean (Claimed.trailing closes 20 i)));
                     volume := o !! "Volume" |}.
Proof.
  intros _.
  destruct processed_run as (h' & Hrun & Hkeep).
  assert (Hlr : length rows = length closes) by (eapply Forall2_length; exact Hnum).
  eexists _, h'. split; [exact Hrun |]. split; [exact Hkeep |]. split.
  - rewrite <- (take_drop 19 (imap plotted rows)), filter_app, length_app.
    assert (Hnil : filter (fun d => sma d <> VNull) (take 19 (imap plotted rows)) = []).
    { apply filter_none. intros p Hp Hnn.
      apply list_elem_of_lookup in Hp as [i Hp].
      pose proof (lookup_lt_Some _ _ _ Hp) as Hi19. rewrite length_take in Hi19.
      rewrite lookup_take_lt in Hp by lia. rewrite list_lookup_imap in Hp.
      destruct (rows !! i) as [o |] eqn:Ho; [| discriminate].
      simpl in Hp. injection Hp as <-.
      assert (Hi : (i < length closes)%nat).
      { rewrite <- Hlr. eapply lookup_lt_Some. exact Ho. }
      revert Hnn. rewrite (plotted_sma i o Hi).
      destruct (Z.ltb_spec (Z.of_nat i) 19); [intros Hnn; contradiction | lia]. }
    rewrite Hnil. simpl. etransitivity; [apply length_filter |].
    rewrite length_drop, length_imap. lia.
  - intros p Hp. apply list_elem_of_filter in Hp as [Hnn Hp].
    apply list_elem_of_lookup in Hp as [i Hp]. rewrite list_lookup_imap in Hp.
    destruct (rows !! i) as [o |] eqn:Ho; [| discriminate].
    simpl in Hp. injection Hp as <-.
    assert (Hi : (i < length closes)%nat).
    { rewrite <- Hlr. eapply lookup_lt_Some. exact Ho. }
    pose proof (plotted_sma i o Hi) as Hs.
    assert (Hcase : (19 <= Z.of_nat i)%Z /\ mean (Claimed.trailing closes 20 i) <> 0).
    { revert Hnn. rewrite Hs.
      destruct (Z.ltb_spec (Z.of_nat i) 19); [intros Hnn; contradiction |].
      destruct (decide (mean (Claimed.trailing closes 20 i) = 0));
        [intros Hnn; contradiction | intros _; split; assumption]. }
    destruct Hcase as [H19 NE].
    rewrite (proj2 (Z.ltb_ge _ _)) in Hs by exact H19.
    rewrite decide_False in Hs by exact NE.
    exists i, o. split; [exact Ho |]. split; [lia |]. split; [exact NE |].
    unfold plotted, to_point in *. cbn [sma] in Hs. rewrite Hs.
    rewrite !lookup_insert_ne by discriminate. reflexivity.
Qed.

Lemma trailing_mean_pos (i : nat) :
  Forall (fun q => 0 < q) closes ->
  (19 <= i)%nat -> (i < length closes)%nat ->
  0 < mean (Claimed.trailing closes 20 i).
Proof.
  intros Hpos H19 Hi.
  destruct (slice_trailing closes 20 i) as [_ Hlen]; [lia | lia | exact Hi |].
  change (Z.to_nat 20) with 20%nat in Hlen.
  unfold mean. rewrite Hlen. apply Qc_div_pos; [| reflexivity].
  apply sum_Qc_pos.
  - intros E. rewrite E in Hlen. discriminate.
  - unfold Claimed.trailing. apply Forall_take, Forall_drop, Hpos.
Qed.

(** X17: when every close is positive, and the 20-close sums and means are
    exact in double arithmetic, the chart plots exactly the bars from index
    19 on, in order: there are length - 19 points, and point [k] is bar
    [19 + k] with its close, its volume and the mean of the 20 closes that
    end there. *)
Theorem X17_positive_closes_are_all_plotted (k : nat) (o : gmap string value) :
  Forall (fun q => 0 < q) closes ->
  (forall i, (19 <= i < length closes)%nat ->
             exact_mean (Claimed.trailing closes 20 i) = true) ->
  rows !! (19 + k)%nat = Some o ->
  exists pts h',
    processedData toLocaleDateString data h = Some (pts, h')
    /\ length pts = (length rows - 19)%nat
    /\ pts !! k
       = Some {| date := toLocaleDateString (o !! "Datetime");
                 price := o !! "Close";
                 sma := VNum (Fin (mean (Claimed.trailing closes 20 (19 + k))));
                 volume := o !! "Volume" |}.
Proof.
  intros Hpos _ Ho. destruct processed_run as (h' & Hrun & _).
  assert (Hlr : length rows = length closes) by (eapply Forall2_length; exact Hnum).
  assert (Hdrop : filter (fun d => sma d <> VNull) (imap plotted rows)
                  = drop 19 (imap plotted rows)).
  { apply filter_is_drop. intros i p Hp. rewrite list_lookup_imap in Hp.
    destruct (rows !! i) as [o' |] eqn:Ho'; [| discriminate].
    simpl in Hp. injection Hp as <-.
    assert (Hi : (i < length closes)%nat).
    { rewrite <- Hlr. eapply lookup_lt_Some. exact Ho'. }
    rewrite (plotted_sma i o' Hi).
    destruct (Z.ltb_spec (Z.of_nat i) 19) as [Hlt | Hge].
    - split; [intros H; contradiction | lia].
    - assert (NE : mean (Claimed.trailing closes 20 i) <> 0).
      { intros E. pose proof (trailing_mean_pos i Hpos ltac:(lia) Hi) as Hp.
        rewrite E in Hp. exact (Qc_lt_irrefl _ Hp). }
      rewrite decide_False by exact NE. split; [intros _; lia | discriminate]. }
  rewrite Hdrop in Hrun. eexists _, h'. split; [exact Hrun |].
  split; [rewrite length_drop, length_imap; reflexivity |].
  assert (Hi : (19 + k < length closes)%nat).
  { rewrite <- Hlr. eapply lookup_lt_Some. exact Ho. }
  assert (Hpt : plotted (19 + k) o
                = {| date := toLocaleDateString (o !! "Datetime");
                     price := o !! "Close";
                     sma := VNum (Fin (mean (Claimed.trailing closes 20 (19 + k))));
                     volume := o !! "Volume" |}).
  { pose proof (plotted_sma (19 + k) o Hi) as Hs.
    rewrite (proj2 (Z.ltb_ge _ _)) in Hs by lia.
    rewrite decide_False in Hs.
    - unfold plotted, to_point in *. cbn [sma] in Hs. rewrite Hs.
      rewrite !lookup_insert_ne by discriminate. reflexivity.
    - intros E. pose proof (trailing_mean_pos (19 + k) Hpos ltac:(lia) Hi) as Hp.
      rewrite E in Hp. exact (Qc_lt_irrefl _ Hp). }
  rewrite lookup_drop, list_lookup_imap, Ho, <- Hpt. reflexivity.
Qed.

End ChartViewExtras.

Section RampExamples.
Import Store Chart ChartView.
Local Open Scope Qc_scope.

Lemma ramp_holds_rows : holds_rows ramp_store (seq 0 21) ramp_rows.
Proof. repeat constructor. Defined.

Lemma ramp_closes :
  Forall2 (fun o q => o !! "Close" = Some (VNum (Fin q))) ramp_rows (map Qc_of_Z ramp).
Proof. repeat constructor. Defined.

Lemma ramp_positive : Forall (fun q => 0 < q) (map Qc_of_Z ramp).
Proof. repeat constructor. Defined.

Lemma ramp_exact (i : nat) :
  (19 <= i < length (map Qc_of_Z ramp))%nat ->
  exact_mean (Claimed.trailing (map Qc_of_Z ramp) 20 i) = true.
Proof.
  intros [Hlo Hhi].
  assert (Hi : i = 19%nat \/ i = 20%nat) by (cbn in Hhi; lia).
  destruct Hi as [-> | ->]; reflexivity.
Defined.

Lemma X16_witness :
  (forall i, (19 <= i < length (map Qc_of_Z ramp))%nat ->
             exact_mean (Claimed.trailing (map Qc_of_Z ramp) 20 i) = true)
  /\ exists pts h',
    processedData (fun _ => "1/15/2024") 21%nat ramp_store = Some (pts, h')
    /\ (length pts <= length ramp_rows - 19)%nat.
Proof.
  split; [exact ramp_exact |].
  destruct (X16_plotted_points_have_a_moving_average (fun _ => "1/15/2024")
              ramp_store 21%nat (seq 0 21) ramp_rows (map Qc_of_Z ramp)
              eq_refl ramp_holds_rows ramp_closes ramp_exact)
    as (pts & h' & Hrun & _ & Hlen & _).
  exists pts, h'. split; [exact Hrun | exact Hlen].
Defined.

Lemma X17_witness :
  exists pts h',
    processedData (fun _ => "1/15/2024") 21%nat ramp_store = Some (pts, h')
    /\ length pts = 2%nat
    /\ pts !! 1%nat
       = Some {| date := "1/15/2024";
                 price := Some (VNum (Fin (Qc_of_Z 21)));
                 sma := VNum (Fin (mean (Claimed.trailing (map Qc_of_Z ramp) 20 20)));
                 volume := None |}.
Proof.
  destruct (X17_positive_closes_are_all_plotted (fun _ => "1/15/2024")
              ramp_store 21%nat (seq 0 21) ramp_rows (map Qc_of_Z ramp)
              eq_refl ramp_holds_rows ramp_closes 1%nat (ramp_bar 21)
              ramp_positive ramp_exact eq_refl)
    as (pts & h' & Hrun & Hlen & Hpt).
  exists pts, h'. split; [exact Hrun |]. split; [exact Hlen | exact Hpt].
Defined.

End RampExamples.

(** ** The Chart component: the range of the price axis *)

Section PriceRange.
Import Store Chart ChartView.
Local Open Scope Qc_scope.

Lemma fold_max_Fin (l : list Qc) (a : Qc) :
  fold_left Num.max (map Fin l) (Fin a) = Fin (fold_left Qc_max l a).
Proof.
  revert a. induction l as [| q l IH]; intros a; [reflexivity |].
  cbn [fold_left map]. rewrite max_Fin. apply IH.
Qed.

Lemma fold_Qc_max_spec (l : list Qc) (a : Qc) :
  (fold_left Qc_max l a = a \/ fold_left Qc_max l a ∈ l)
  /\ a <= fold_left Qc_max l a
  /\ forall x, x ∈ l -> x <= fold_left Qc_max l a.
Proof.
  revert a. induction l as [| q l IH]; intros a; simpl.
  - split; [left; reflexivity |]. split; [apply Qcle_refl |].
    intros x Hx. inversion Hx.
  - destruct (IH (Qc_max a q)) as (Hin & Hle & Hall).
    split; [| split].
    + destruct Hin as [-> | Hin].
      * destruct (Qc_max_spec a q) as [[_ ->] | [_ ->]];
          [right; apply list_elem_of_here | left; reflexivity].
      * right. apply list_elem_of_further. exact Hin.
    + eapply Qcle_trans; [apply Qc_max_ub_l | exact Hle].
    + intros x Hx. apply elem_of_cons in Hx as [-> | Hx].
      * eapply Qcle_trans; [apply Qc_max_ub_r | exact Hle].
      * apply Hall. exact Hx.
Qed.

Lemma max_list_Fin (l : list Qc) :
  l <> [] ->
  exists m, max_list (map Fin l) = Fin m /\ m ∈ l /\ forall x, x ∈ l -> x <= m.
Proof.
  destruct l as [| q l]; [congruence | intros _].
  exists (fold_left Qc_max l q). unfold max_list. cbn [fold_left map].
  change (Num.max NInf (Fin q)) with (Fin q). rewrite fold_max_Fin.
  destruct (fold_Qc_max_spec l q) as (Hin & Hle & Hall).
  split; [reflexivity |]. split.
  - destruct Hin as [-> | Hin]; [apply list_elem_of_here | apply list_elem_of_further, Hin].
  - intros x Hx. apply elem_of_cons in Hx as [-> | Hx]; [exact Hle | apply Hall, Hx].
Qed.

Lemma operands_numeric (field : string) (rows : list (gmap string value))
    (qs : list Qc) :
  Forall2 (fun o q => o !! field = Some (VNum (Fin q))) rows qs ->
  operands field rows = Some (map Fin qs).
Proof.
  induction 1 as [| o q rows qs Hq _ IH]; [reflexivity |].
  cbn [operands]. rewrite Hq, IH. reflexivity.
Qed.

Variables (h : store) (data : loc) (elems : list loc).
Variable rows : list (gmap string value).
Variables lows highs : list Qc.
Hypothesis Hdata : h !! data = Some (Arr elems).
Hypothesis Hrows : holds_rows h elems rows.
Hypothesis Hlow : Forall2 (fun o q => o !! "Low" = Some (VNum (Fin q))) rows lows.
Hypothesis Hhigh : Forall2 (fun o q => o !! "High" = Some (VNum (Fin q))) rows highs.

(** X18: on a non-empty series with numeric lows and highs, [minPrice] is
    the least low and [maxPrice] the greatest high: each is the value of some
    bar and bounds the values of all bars; the store is not touched; and
    when every bar has its low below its high, [minPrice <= maxPrice], so
    the domain of the price axis is in order. *)
Theorem X18_price_axis_range :
  rows <> [] ->
  exists lo hi,
    minPrice data h = Some (Fin lo, h)
    /\ maxPrice data h = Some (Fin hi, h)
    /\ lo ∈ lows /\ (forall x, x ∈ lows -> lo <= x)
    /\ hi ∈ highs /\ (forall x, x ∈ highs -> x <= hi)
    /\ (Forall2 Qcle lows highs -> lo <= hi).
Proof.
  intros Hne.
  assert (Hl : lows <> []).
  { intros E. rewrite E in Hlow. inversion Hlow. congruence. }
  assert (Hh : highs <> []).
  { intros E. rewrite E in Hhigh. inversion Hhigh. congruence. }
  destruct (min_list_Fin lows Hl) as (lo & Hlo & Hlin & Hlall).
  destruct (max_list_Fin highs Hh) as (hi & Hhi & Hhin & Hhall).
  exists lo, hi.
  split.
  { unfold minPrice, mbind, store_bind, bind, read_arr. rewrite Hdata.
    rewrite (read_all_run h _ _ Hrows), (operands_numeric _ _ _ Hlow), Hlo. reflexivity. }
  split.
  { unfold maxPrice, mbind, store_bind, bind, read_arr. rewrite Hdata.
    rewrite (read_all_run h _ _ Hrows), (operands_numeric _ _ _ Hhigh), Hhi. reflexivity. }
  split; [exact Hlin |]. split; [exact Hlall |].
  split; [exact Hhin |]. split; [exact Hhall |].
  intros Hord. destruct Hord as [| l0 h0 ls hs Hle _]; [congruence |].
  eapply Qcle_trans; [apply Hlall, list_elem_of_here |].
  eapply Qcle_trans; [exact Hle | apply Hhall, list_elem_of_here].
Qed.

End PriceRange.

Section RangeExamples.
Import Store Chart ChartView.
Local Open Scope Qc_scope.

Lemma ramp_lows :
  Forall2 (fun o q => o !! "Low" = Some (VNum (Fin q))) ramp_rows
    (map (fun c => Qc_of_Z (c - 1)) ramp).
Proof. repeat constructor. Defined.

Lemma ramp_highs :
  Forall2 (fun o q => o !! "High" = Some (VNum (Fin q))) ramp_rows
    (map (fun c => Qc_of_Z (c + 1)) ramp).
Proof. repeat constructor. Defined.

Lemma X18_witness :
  ramp_rows <> []
  /\ exists lo hi,
       minPrice 21%nat ramp_store = Some (Fin lo, ramp_store)
       /\ maxPrice 21%nat ramp_store = Some (Fin hi, ramp_store)
       /\ lo ∈ map (fun c => Qc_of_Z (c - 1)) ramp
       /\ hi ∈ map (fun c => Qc_of_Z (c + 1)) ramp.
Proof.
  assert (Hne : ramp_rows <> []) by discriminate.
  split; [exact Hne |].
  destruct (X18_price_axis_range ramp_store 21%nat (seq 0 21) ramp_rows _ _
              eq_refl ramp_holds_rows ramp_lows ramp_highs Hne)
    as (lo & hi & Hmin & Hmax & Hlo & _ & Hhi & _).
  exists lo, hi. repeat split; assumption.
Defined.

(** On an empty series the range is inverted: from [Infinity] down to
    [-Infinity]. *)
Example price_axis_of_no_bar :
  minPrice 0%nat [Arr []] = Some (PInf, [Arr []])
  /\ maxPrice 0%nat [Arr []] = Some (NInf, [Arr []]).
Proof. split; reflexivity. Qed.

End RangeExamples.

(** ** The tab bar of the App component *)

Section TabBar.
Import App.

(** X19: after a click on an item of the tab bar, the item is marked as
    current when it is Dashboard, Backtest or Portfolio, and no item at all
    is marked when it is Live Trading or Live Feed: the tab that the click
    sets ("live-trading", "live-feed") is not the one their items compare
    with ("trading", "feed"). *)
Theorem X19_click_marks_the_item_unless_its_name_has_a_space
    (activeTab : string) (it : item) :
  it ∈ navigation activeTab ->
  map name (filter (fun i => current i = true) (navigation (onClick it)))
  = if bool_decide (name it = "Live Trading" \/ name it = "Live Feed")
    then [] else [name it].
Proof.
  intros Hin. unfold navigation in Hin.
  repeat (apply elem_of_cons in Hin as [-> | Hin]); [.. | inversion Hin];
    vm_compute; reflexivity.
Qed.

End TabBar.

Lemma X19_witness :
  App.onClick {| App.name := "Live Trading"; App.href := "/trading";
                 App.current := bool_decide ("dashboard" = "trading") |}
  = "live-trading"
  /\ map App.name
       (filter (fun i => App.current i = true)
          (App.navigation
             (App.onClick {| App.name := "Live Trading"; App.href := "/trading";
                             App.current := bool_decide ("dashboard" = "trading") |})))
     = [].
Proof.
  split; [reflexivity |].
  apply (X19_click_marks_the_item_unless_its_name_has_a_space "dashboard").
  apply list_elem_of_further, list_elem_of_here.
Defined.

(** ** The colour of a price change *)

Section PriceChange.
Import LiveFeed.

Lemma ltb_asym (a b : number) : Num.ltb a b = true -> Num.ltb b a = false.
Proof.
  destruct a as [x | | |], b as [y | | |]; simpl; try congruence.
  unfold Qccompare. rewrite <- (Qcompare_antisym (this x) (this y)).
  destruct (this x ?= this y)%Q; simpl; congruence.
Qed.

(** X20: the colour is green exactly when the colour of the swapped
    arguments is red, and grey exactly when the swapped arguments give grey
    too: that is when the prices are equal or one of them is [NaN]. *)
Theorem X20_price_change_colour_is_antisymmetric (current previous : number) :
  (getPriceChangeColor current previous = "text-green-600"
   <-> getPriceChangeColor previous current = "text-red-600")
  /\ (getPriceChangeColor current previous = "text-gray-600"
      <-> getPriceChangeColor previous current = "text-gray-600")
  /\ (getPriceChangeColor current previous = "text-gray-600"
      <-> Num.ltb previous current = false /\ Num.ltb current previous = false).
Proof.
  unfold getPriceChangeColor.
  destruct (Num.ltb previous current) eqn:E1, (Num.ltb current previous) eqn:E2.
  - rewrite (ltb_asym _ _ E1) in E2. discriminate.
  - intuition congruence.
  - intuition congruence.
  - intuition congruence.
Qed.

End PriceChange.

(** ** The symbol search of the Dashboard *)

Section SymbolSearch.
Import Dashboard.

Lemma string_prefix_refl (s : string) : String.prefix s s = true.
Proof.
  induction s as [| c s IH]; [reflexivity |]. simpl.
  destruct (Ascii.ascii_dec c c); [exact IH | contradiction].
Qed.

Lemma includes_refl (s : string) : Str.includes s s = true.
Proof.
  destruct s as [| c s]; [reflexivity |].
  cbn [Str.includes]. rewrite string_prefix_refl. reflexivity.
Qed.

Lemma includes_empty (s : string) : Str.includes s "" = true.
Proof. destruct s; reflexivity. Qed.

(** X21: the search keeps the symbols in their order, each at most once;
    the empty term finds all six symbols; and a term that is the name of a
    symbol, typed in any case, finds that symbol. *)
Theorem X21_symbol_search (searchTerm : string) :
  sublist (filteredSymbols searchTerm) symbols
  /\ filteredSymbols "" = symbols
  /\ forall symbol,
       symbol ∈ symbols ->
       Str.toLowerCase searchTerm = Str.toLowerCase symbol ->
       symbol ∈ filteredSymbols searchTerm.
Proof.
  split; [apply sublist_filter |]. split; [reflexivity |].
  intros symbol Hin Hlow. unfold filteredSymbols.
  apply list_elem_of_filter. split; [| exact Hin].
  rewrite Hlow. apply includes_refl.
Qed.

End SymbolSearch.

(** ** [computeSMA] at the ends of the range of periods *)

Section PeriodEdges.
Import Store Chart.
Local Open Scope Qc_scope.

Lemma sma_value_nonpositive (ops : list number) (period : Z) (i : nat) :
  (period <= 0)%Z ->
  sma_value ops period i
  = VNum (if (period =? 0)%Z then NaN else Fin 0).
Proof.
  intros Hp. unfold sma_value.
  destruct (Z.ltb_spec (Z.of_nat i) (period - 1)); [lia |].
  assert (Hs : slice ops (Z.of_nat i - period + 1) (Z.of_nat i + 1) = []).
  { unfold slice.
    destruct (Z.ltb_spec (Z.of_nat i - period + 1) 0); [lia |].
    destruct (Z.ltb_spec (Z.of_nat i + 1) 0); [lia |].
    replace (Z.to_nat (Z.min (Z.of_nat i + 1) (Z.of_nat (length ops))
                       - Z.min (Z.of_nat i - period + 1) (Z.of_nat (length ops))))
      with 0%nat by lia.
    reflexivity. }
  rewrite Hs. cbn [fold_left]. f_equal.
  destruct (Z.eqb_spec period 0) as [-> | Hne]; [reflexivity |].
  unfold Num.of_Z, Num.div.
  assert (Hneg : Qc_of_Z period < 0).
  { unfold Qclt. simpl. unfold Qlt. simpl. lia. }
  rewrite (Qc_sign_neg _ Hneg). f_equal. unfold Qcdiv. apply Qcmult_0_l.
Qed.

Variables (h : store) (data : loc) (elems : list loc).
Variable rows : list (gmap string value).
Hypothesis Hdata : h !! data = Some (Arr elems).
Hypothesis Hrows : holds_rows h elems rows.

(** X22: with a period of 0 or less no entry is null: for period 0 every
    [sma] is [NaN] (the empty sum 0 divided by 0), and for a negative period
    every [sma] is 0 (the empty sum divided by the period). *)
Theorem X22_nonpositive_period (ops : list number) (period : Z) (i : nat)
    (o : gmap string value) :
  Forall2 (fun o c => Close_operand o = Some c) rows ops ->
  (period <= 0)%Z ->
  rows !! i = Some o ->
  exists out outs h' e,
    computeSMA data period h = Some (out, h')
    /\ h' !! out = Some (Arr outs)
    /\ outs !! i = Some e
    /\ h' !! e
       = Some (Obj (<["sma" := VNum (if (period =? 0)%Z then NaN else Fin 0)]> o)).
Proof.
  intros Hops Hp Ho.
  destruct (computeSMA_run h data elems rows ops period Hdata Hrows Hops)
    as (out & outs & h' & Hrun & _ & _ & Hout & _ & Hall).
  destruct (Hall i o Ho) as (e & He & _ & Hobj).
  exists out, outs, h', e. split; [exact Hrun |]. split; [exact Hout |].
  split; [exact He |]. rewrite Hobj, sma_value_nonpositive by exact Hp. reflexivity.
Qed.

(** X23: with period 1 the moving average of a numeric series is the
    series itself: no entry is null and the [sma] of every bar is its own
    close. *)
Theorem X23_period_one_is_the_close (closes : list Qc) (i : nat)
    (o : gmap string value) (q : Qc) :
  Forall2 (fun o q => o !! "Close" = Some (VNum (Fin q))) rows closes ->
  rows !! i = Some o ->
  closes !! i = Some q ->
  exists out outs h' e,
    computeSMA data 1 h = Some (out, h')
    /\ h' !! out = Some (Arr outs)
    /\ outs !! i = Some e
    /\ h' !! e = Some (Obj (<["sma" := VNum (Fin q)]> o)).
Proof.
  intros Hnum Ho Hq.
  destruct (computeSMA_run h data elems rows (map Fin closes) 1 Hdata Hrows
              (numeric_operands rows closes Hnum))
    as (out & outs & h' & Hrun & _ & _ & Hout & _ & Hall).
  destruct (Hall i o Ho) as (e & He & _ & Hobj).
  exists out, outs, h', e. split; [exact Hrun |]. split; [exact Hout |].
  split; [exact He |]. rewrite Hobj. do 3 f_equal.
  pose proof (lookup_lt_Some _ _ _ Hq) as Hi.
  rewrite sma_value_numeric by (lia || exact Hi).
  destruct (Z.ltb_spec (Z.of_nat i) (1 - 1)); [lia |].
  do 2 f_equal. unfold Claimed.trailing. change (Z.to_nat 1) with 1%nat.
  replace (S i - 1)%nat with i by lia.
  rewrite (drop_S _ _ _ Hq).
  change (take 1 (q :: drop (S i) closes)) with [q].
  unfold mean, sum_Qc. cbn [foldr length].
  assert (H1 : Qc_of_Z (Z.of_nat 1) = 1) by (apply Qc_is_canon; reflexivity).
  rewrite H1. field. discriminate.
Qed.

End PeriodEdges.

Lemma X22_witness :
  exists out outs h' e,
    Chart.computeSMA 4%nat 0 sample_store = Some (out, h')
    /\ h' !! out = Some (Store.Arr outs)
    /\ outs !! 0%nat = Some e
    /\ h' !! e = Some (Store.Obj (<["sma" := VNum NaN]> (bar "2024-01-15" 1))).
Proof.
  exact (X22_nonpositive_period sample_store 4%nat [0; 1; 2; 3]%nat sample_rows
           eq_refl sample_holds_rows (map Fin sample_closes) 0 0%nat _
           sample_operands ltac:(discriminate) eq_refl).
Defined.

Lemma X23_witness :
  exists out outs h' e,
    Chart.computeSMA 4%nat 1 sample_store = Some (out, h')
    /\ h' !! out = Some (Store.Arr outs)
    /\ outs !! 3%nat = Some e
    /\ h' !! e = Some (Store.Obj (<["sma" := VNum (Fin (Qc_of_Z 6))]> (bar "2024-01-18" 6))).
Proof.
  exact (X23_period_one_is_the_close sample_store 4%nat [0; 1; 2; 3]%nat sample_rows
           eq_refl sample_holds_rows sample_closes 3%nat _ _
           sample_numeric eq_refl eq_refl).
Defined.
